(** * bikewatching: the time-bucketed traffic engine of [map.js]

    A shallow embedding of the minute index ([departuresByMinute],
    [arrivalsByMinute]), of the window query [filterByMinute], of the row
    callback that fills the index, and of [computeStationTraffic], followed
    by the properties of the engine that were checked against it. *)

From stdpp Require Import gmap strings list fin_maps.

Local Open Scope Z_scope.

(** ** JavaScript values and built-ins used by [map.js] *)

Module JS.

(** The numbers the engine computes with are integers far below 2^53, plus
    [NaN], which [getHours] and [getMinutes] return on an invalid date. *)
Inductive number : Type :=
| NaN
| Int (z : Z).

Definition add (a b : number) : number :=
  match a, b with
  | Int x, Int y => Int (x + y)
  | _, _ => NaN
  end.

Definition mul (a b : number) : number :=
  match a, b with
  | Int x, Int y => Int (x * y)
  | _, _ => NaN
  end.

(** [x + y] where an operand may be [undefined] (an absent property):
    [undefined] converts to [NaN]. *)
Definition add_prop (a b : option number) : number :=
  match a, b with
  | Some x, Some y => add x y
  | _, _ => NaN
  end.

(** [x ?? d] on the result of [Map.prototype.get]. *)
Definition nullish (x : option number) (d : number) : number :=
  match x with
  | Some v => v
  | None => d
  end.

(** [x % y] on integers: the sign of the result follows the dividend. *)
Definition rem (x y : Z) : Z := Z.rem x y.

(** The value of [new Date(s)]: either an invalid date or a local time, of
    which the engine reads the hour and the minute only. *)
Inductive Date : Type :=
| InvalidDate
| DateTime (hours minutes : Z).

Definition getHours (d : Date) : number :=
  match d with
  | InvalidDate => NaN
  | DateTime h _ => Int h
  end.

Definition getMinutes (d : Date) : number :=
  match d with
  | InvalidDate => NaN
  | DateTime _ m => Int m
  end.

(** What the language guarantees of a valid date. *)
Definition Date_wf (d : Date) : Prop :=
  match d with
  | InvalidDate => True
  | DateTime h m => 0 <= h < 24 /\ 0 <= m < 60
  end.

Definition isValid (d : Date) : bool :=
  match d with
  | InvalidDate => false
  | DateTime _ _ => true
  end.

(** [a[i]] as a place: the position of an own element of [a], or nothing
    ([a[i]] is [undefined]) when [i] is [NaN], negative or past the end. *)
Definition index {A} (a : list A) (i : number) : option nat :=
  match i with
  | NaN => None
  | Int z =>
      if (0 <=? z) && (z <? Z.of_nat (length a)) then Some (Z.to_nat z)
      else None
  end.

(** Relative index of [Array.prototype.slice]: a negative argument counts
    from the end, and the result is clamped to [0, len]. *)
Definition relative (len k : Z) : Z :=
  if k <? 0 then Z.max (len + k) 0 else Z.min k len.

(** [a.slice(start)] is [slice a start None]; [a.slice(start, end)] is
    [slice a start (Some end)]. *)
Definition slice {A} (a : list A) (start : Z) (end_ : option Z) : list A :=
  let len := Z.of_nat (length a) in
  let k := relative len start in
  let final :=
    match end_ with
    | None => len
    | Some e => relative len e
    end in
  take (Z.to_nat (final - k)) (drop (Z.to_nat k) a).

(** [a.flat()] on an array of arrays of objects: one level is flattened. *)
Definition flat {A} (a : list (list A)) : list A := concat a.

(** [Array.from({ length: n }, () => [])]: [n] distinct empty arrays. *)
Definition from_length {A} (n : nat) : list (list A) := replicate n [].

End JS.

(** ** The part of d3 used by the engine *)

Module D3.

(** [d3.group(values, key)]: the values of each key, in encounter order. *)
Definition group {T} (values : list T) (key : T -> string)
  : gmap string (list T) :=
  foldl (fun groups v =>
           <[key v := default [] (groups !! key v) ++ [v]]> groups)
        ∅ values.

(** [d3.rollup(values, reduce, key)]: a map from each key that occurs to
    the reduction of its group. *)
Definition rollup {T R} (values : list T) (reduce : list T -> R)
    (key : T -> string) : gmap string R :=
  reduce <$> group values key.

End D3.

(** ** Data model *)

(** A row of the trips file after lines 110-111 have replaced the two
    timestamp strings by dates. The other columns are never read. *)
Record Trip : Type := mkTrip {
  start_station_id : string;
  end_station_id : string;
  started_at : JS.Date;
  ended_at : JS.Date
}.

(** A station object of the roster. [short_name] is the join key; [lat] and
    [lon] are carried as the text of their literals, the engine never reads
    them. The three derived properties are absent until the first query. *)
Record Station : Type := mkStation {
  short_name : string;
  lat : string;
  lon : string;
  departures : option JS.number;
  arrivals : option JS.number;
  totalTraffic : option JS.number
}.

(** The state of the module: the two bucket arrays and the station objects.
    Station objects live in a store and a roster array holds references
    (positive numbers) to them: [stations.map] writes through them. *)
Record World : Type := mkWorld {
  departuresByMinute : list (list Trip);
  arrivalsByMinute : list (list Trip);
  heap : gmap positive Station
}.

Definition set_departuresByMinute (f : list (list Trip) -> list (list Trip))
    (w : World) : World :=
  mkWorld (f (departuresByMinute w)) (arrivalsByMinute w) (heap w).

Definition set_arrivalsByMinute (f : list (list Trip) -> list (list Trip))
    (w : World) : World :=
  mkWorld (departuresByMinute w) (f (arrivalsByMinute w)) (heap w).

Definition set_heap (f : gmap positive Station -> gmap positive Station)
    (w : World) : World :=
  mkWorld (departuresByMinute w) (arrivalsByMinute w) (f (heap w)).

(** Lines 21-22: both arrays start as 1440 empty buckets. *)
Definition initialWorld (h : gmap positive Station) : World :=
  mkWorld (JS.from_length 1440) (JS.from_length 1440) h.

(** ** Statements with effects and exceptions

    A statement runs in a world and ends normally with a value or abruptly
    with a thrown error; in both cases the writes it has made stay. *)

Inductive error : Type :=
| TypeError.

Inductive outcome (A : Type) : Type :=
| Normal (a : A)
| Throw (e : error).
Arguments Normal {A} a.
Arguments Throw {A} e.

Definition M (A : Type) : Type := World -> outcome A * World.

#[global] Instance M_ret : MRet M := fun A a w => (Normal a, w).

#[global] Instance M_bind : MBind M := fun A B f m w =>
  match m w with
  | (Normal a, w') => f a w'
  | (Throw e, w') => (Throw e, w')
  end.

Definition get_world : M World := fun w => (Normal w, w).

Definition throw {A} (e : error) : M A := fun w => (Throw e, w).

(** [try { body } catch (err) { handler }] *)
Definition try_catch {A} (body : M A) (handler : error -> M A) : M A :=
  fun w =>
    match body w with
    | (Normal a, w') => (Normal a, w')
    | (Throw e, w') => handler e w'
    end.

(** [departuresByMinute[i].push(d)]: a [TypeError] when
    [departuresByMinute[i]] is [undefined]. *)
Definition departures_push (i : JS.number) (d : Trip) : M () := fun w =>
  match JS.index (departuresByMinute w) i with
  | None => (Throw TypeError, w)
  | Some n =>
      (Normal (), set_departuresByMinute (alter (fun b => b ++ [d]) n) w)
  end.

(** [arrivalsByMinute[i].push(d)] *)
Definition arrivals_push (i : JS.number) (d : Trip) : M () := fun w =>
  match JS.index (arrivalsByMinute w) i with
  | None => (Throw TypeError, w)
  | Some n =>
      (Normal (), set_arrivalsByMinute (alter (fun b => b ++ [d]) n) w)
  end.

(** Writing through a station reference. *)
Definition update_station (station : positive) (f : Station -> Station)
  : M () := fun w => (Normal (), set_heap (alter f station) w).

(** ** The engine *)

(** Lines 14-16. *)
Definition minutesSinceMidnight (date : JS.Date) : JS.number :=
  JS.add (JS.mul (JS.getHours date) (JS.Int 60)) (JS.getMinutes date).

(** Lines 25-36. *)
Definition filterByMinute {T} (tripsByMinute : list (list T)) (minute : Z)
  : list T :=
  if minute =? -1 then JS.flat tripsByMinute
  else
    let minMinute := JS.rem (minute - 60 + 1440) 1440 in
    let maxMinute := JS.rem (minute + 60) 1440 in
    if minMinute >? maxMinute then
      JS.flat (JS.slice tripsByMinute minMinute None
               ++ JS.slice tripsByMinute 0 (Some maxMinute))
    else JS.flat (JS.slice tripsByMinute minMinute (Some maxMinute)).

(** Lines 115-118: the body of the [try] block of the row callback. *)
Definition populate (d : Trip) : M () :=
  let sMin := minutesSinceMidnight (started_at d) in
  let eMin := minutesSinceMidnight (ended_at d) in
  departures_push sMin d ≫= fun _ => arrivals_push eMin d.

(** Lines 113-123: the row callback, after the two dates have been made. *)
Definition row (d : Trip) : M Trip :=
  try_catch (populate d) (fun err => mret ()) ≫= fun _ => mret d.

(** Line 109: [d3.csv] calls the row callback on every row, in file order,
    and collects what it returns. *)
Definition loadTrips (rows : list Trip) : M (list Trip) := mapM row rows.

(** Lines 48-52: the body of the callback of [stations.map], as the three
    assignments it makes to one station object. *)
Definition writeTraffic (departures_map arrivals_map : gmap string JS.number)
    (station : Station) : Station :=
  let id := short_name station in
  let station1 :=
    mkStation (short_name station) (lat station) (lon station)
      (Some (JS.nullish (departures_map !! id) (JS.Int 0)))
      (arrivals station) (totalTraffic station) in
  let station2 :=
    mkStation (short_name station1) (lat station1) (lon station1)
      (departures station1)
      (Some (JS.nullish (arrivals_map !! id) (JS.Int 0)))
      (totalTraffic station1) in
  mkStation (short_name station2) (lat station2) (lon station2)
    (departures station2) (arrivals station2)
    (Some (JS.add_prop (departures station2) (arrivals station2))).

(** Lines 44-53: the aggregation of two trip lists onto the roster. *)
Definition aggregate (stations : list positive)
    (depTrips arrTrips : list Trip) : M (list positive) :=
  let departures_map :=
    D3.rollup depTrips (fun v => JS.Int (Z.of_nat (length v)))
      start_station_id in
  let arrivals_map :=
    D3.rollup arrTrips (fun v => JS.Int (Z.of_nat (length v)))
      end_station_id in
  mapM (fun station =>
          update_station station (writeTraffic departures_map arrivals_map)
          ≫= fun _ => mret station)
       stations.

(** Lines 40-54. *)
Definition computeStationTraffic (stations : list positive) (timeFilter : Z)
  : M (list positive) :=
  get_world ≫= fun w =>
  let depTrips := filterByMinute (departuresByMinute w) timeFilter in
  let arrTrips := filterByMinute (arrivalsByMinute w) timeFilter in
  aggregate stations depTrips arrTrips.

(** Line 127: the call that leaves [timeFilter] to its default. *)
Definition computeStationTraffic_default (stations : list positive)
  : M (list positive) := computeStationTraffic stations (-1).

(** ** Vocabulary of the statements *)

(** The bucket of minute [m]; empty past the end of the array. *)
Definition bucket {T} (idx : list (list T)) (m : nat) : list T :=
  default [] (idx !! m).

(** The trips of the buckets [lo, hi), in bucket order. *)
Definition buckets {T} (idx : list (list T)) (lo hi : nat) : list T :=
  concat (bucket idx <$> seq lo (hi - lo)).

(** The 120 minutes from [c - 60] up to [c + 59] on the 1440-minute circle,
    in that order. *)
Definition windowMinutes (c : Z) : list nat :=
  (fun k => Z.to_nat ((c - 60 + Z.of_nat k) `mod` 1440)) <$> seq 0 120.

(** The window as section 4.2 of the specification words it, with
    [halfWidth = 60] and [bucketLength = 1440]; to be compared with
    [filterByMinute]. *)
Definition spec_Resolve {T} (idx : list (list T)) (centerMinute : Z)
  : list T :=
  let minMinute := (centerMinute - 60 + 1 + 1440) `mod` 1440 in
  let maxMinute := (centerMinute + 60) `mod` 1440 in
  if minMinute <=? maxMinute then
    buckets idx (Z.to_nat minMinute) (Z.to_nat maxMinute)
  else
    buckets idx (Z.to_nat minMinute) 1440
    ++ buckets idx 0 (Z.to_nat maxMinute).

(** The world a statement leaves, and the value it returns. *)
Definition exec {A} (m : M A) (w : World) : World := (m w).2.
Definition result {A} (m : M A) (w : World) : outcome A := (m w).1.

(** The minute of day of a date when it has one. *)
Definition minuteOf (date : JS.Date) : option nat :=
  match date with
  | JS.InvalidDate => None
  | JS.DateTime h m => Some (Z.to_nat (h * 60 + m))
  end.

(** Both timestamps of the trip parse. *)
Definition validTrip (d : Trip) : bool :=
  JS.isValid (started_at d) && JS.isValid (ended_at d).

Definition Trip_wf (d : Trip) : Prop :=
  JS.Date_wf (started_at d) /\ JS.Date_wf (ended_at d).

Definition validTripCount (rows : list Trip) : nat :=
  length (filter (fun d => validTrip d = true) rows).

(** The number of trips in an index, bucket by bucket. *)
Definition indexSize {T} (idx : list (list T)) : nat :=
  sum_list_with length idx.

(** The number of trips of a list whose key is [id]. *)
Definition countBy (key : Trip -> string) (id : string) (trips : list Trip)
  : Z :=
  Z.of_nat (length (filter (fun d => key d = id) trips)).

(** A derived property read back as an integer. *)
Definition intOf (x : option JS.number) : Z :=
  match x with
  | Some (JS.Int z) => z
  | _ => 0
  end.

(** The sum of [totalTraffic] over the stations of a roster. *)
Definition sumTotalTraffic (w : World) (stations : list positive) : Z :=
  foldr (fun l acc => intOf (heap w !! l ≫= totalTraffic) + acc) 0 stations.

(** The join keys of a roster whose station objects are in store [h]. *)
Definition rosterIds (h : gmap positive Station) (stations : list positive)
  : list string :=
  omap (fun l => short_name <$> h !! l) stations.

(** The sum of [f] over a list of join keys. *)
Definition sumOver (f : string -> Z) (ids : list string) : Z :=
  foldr (fun id acc => f id + acc) 0 ids.

(** The write of one [push] on a bucket array. *)
Definition pushAt (n : nat) (d : Trip) (idx : list (list Trip))
  : list (list Trip) :=
  alter (fun b => b ++ [d]) n idx.

(** The net effect of the row callback on the world, read off [row]: the
    departure push happens when the start minute is a slot, and the arrival
    push happens after it, when the end minute is a slot too. *)
Definition rowStep (d : Trip) (w : World) : World :=
  match JS.index (departuresByMinute w)
          (minutesSinceMidnight (started_at d)) with
  | None => w
  | Some n =>
      let w1 := set_departuresByMinute (pushAt n d) w in
      match JS.index (arrivalsByMinute w1)
              (minutesSinceMidnight (ended_at d)) with
      | None => w1
      | Some k => set_arrivalsByMinute (pushAt k d) w1
      end
  end.

(** The net effect of [aggregate] on the store. *)
Definition aggregateHeap (stations : list positive)
    (depTrips arrTrips : list Trip) (h : gmap positive Station)
  : gmap positive Station :=
  let departures_map :=
    D3.rollup depTrips (fun v => JS.Int (Z.of_nat (length v)))
      start_station_id in
  let arrivals_map :=
    D3.rollup arrTrips (fun v => JS.Int (Z.of_nat (length v)))
      end_station_id in
  foldl (fun h l => alter (writeTraffic departures_map arrivals_map) l h)
        h stations.

(** What [aggregate] leaves in a station object. *)
Definition withTraffic (depTrips arrTrips : list Trip) (s : Station)
  : Station :=
  let d := countBy start_station_id (short_name s) depTrips in
  let a := countBy end_station_id (short_name s) arrTrips in
  mkStation (short_name s) (lat s) (lon s)
    (Some (JS.Int d)) (Some (JS.Int a)) (Some (JS.Int (d + a))).

(** The two bucket arrays have their 1440 slots. *)
Definition indexed (w : World) : Prop :=
  length (departuresByMinute w) = 1440%nat
  /\ length (arrivalsByMinute w) = 1440%nat.

(** The trip starts in minute [m]. *)
Definition startsAt (m : nat) (d : Trip) : Prop :=
  minuteOf (started_at d) = Some m.

(** Both timestamps of the trip parse and it ends in minute [m]. *)
Definition arrivesAt (m : nat) (d : Trip) : Prop :=
  validTrip d = true /\ minuteOf (ended_at d) = Some m.

(** The start of the trip parses. *)
Definition startParses (d : Trip) : Prop :=
  JS.isValid (started_at d) = true.

#[global] Instance startsAt_dec (m : nat) (d : Trip)
  : Decision (startsAt m d) :=
  decide (minuteOf (started_at d) = Some m).

#[global] Instance arrivesAt_dec (m : nat) (d : Trip)
  : Decision (arrivesAt m d) :=
  decide (validTrip d = true /\ minuteOf (ended_at d) = Some m).

#[global] Instance startParses_dec (d : Trip) : Decision (startParses d) :=
  decide (JS.isValid (started_at d) = true).

(** ** Sample data *)

Module Sample.

(** A trip from A to B, 10:40 to 10:45 (minutes 640 and 645). *)
Definition tripAB : Trip :=
  mkTrip "A" "B" (JS.DateTime 10 40) (JS.DateTime 10 45).

(** A trip from B to A, 11:45 to 11:50 (minutes 705 and 710). *)
Definition tripBA : Trip :=
  mkTrip "B" "A" (JS.DateTime 11 45) (JS.DateTime 11 50).

(** A trip whose start parses (08:00, minute 480) and whose end does not. *)
Definition tripBadEnd : Trip :=
  mkTrip "A" "B" (JS.DateTime 8 0) JS.InvalidDate.

(** A trip whose start does not parse. *)
Definition tripBadStart : Trip :=
  mkTrip "A" "B" JS.InvalidDate (JS.DateTime 8 5).

Definition stationA : Station := mkStation "A" "42.36" "-71.09" None None None.
Definition stationB : Station := mkStation "B" "42.35" "-71.10" None None None.
(** A station no trip refers to. *)
Definition stationC : Station := mkStation "C" "42.34" "-71.11" None None None.

Definition store : gmap positive Station :=
  {[ 1%positive := stationA; 2%positive := stationB; 3%positive := stationC ]}.

(** An index with a single trip, in bucket 640. *)
Definition idx640 : list (list Trip) :=
  <[640%nat := [tripAB]]> (JS.from_length 1440).

(** The world after the two good trips have been loaded. *)
Definition loaded : World :=
  exec (loadTrips [tripAB; tripBA]) (initialWorld store).

End Sample.

(** ** Vocabulary of the further statements *)

(** [Number.MAX_SAFE_INTEGER], 2^53 - 1: integers up to it are numbers, and
    sums of two of them that stay below it are exact. *)
Definition MAX_SAFE_INTEGER : Z := 9007199254740991.

(** The date has a minute of day and it lies in the window of minute [c]. *)
Definition inWindow (c : Z) (date : JS.Date) : bool :=
  match minuteOf date with
  | Some m => bool_decide (m ∈ windowMinutes c)
  | None => false
  end.

(** What a scan of the whole trips file selects for minute [c]: the rows
    whose start lies in the window, in file order. *)
Definition scanDepartures (rows : list Trip) (c : Z) : list Trip :=
  filter (fun d => inWindow c (started_at d) = true) rows.

(** The rows whose two timestamps parse and whose end lies in the window. *)
Definition scanArrivals (rows : list Trip) (c : Z) : list Trip :=
  filter (fun d => validTrip d = true /\ inWindow c (ended_at d) = true) rows.

(** The start of the trip parses and its end does not. *)
Definition endFails (d : Trip) : Prop :=
  JS.isValid (started_at d) = true /\ JS.isValid (ended_at d) = false.

#[global] Instance endFails_dec (d : Trip) : Decision (endFails d) :=
  decide (JS.isValid (started_at d) = true
          /\ JS.isValid (ended_at d) = false).

(** Lines 109-127: the trips are loaded, then the roster gets its first,
    unfiltered, counts. *)
Definition startup (rows : list Trip) (stations : list positive)
  : M (list positive) :=
  loadTrips rows ≫= fun _ => computeStationTraffic_default stations.

(** Lines 181-183 and 213-222: every move of the slider queries with the
    roster array bound at line 127, one move after the other. *)
Definition slide (stations : list positive) (timeFilters : list Z)
  : M (list (list positive)) :=
  mapM (computeStationTraffic stations) timeFilters.

(** ** Proof steps *)

(** Decides the filter of a single row once the two dates are known. *)
Ltac filter_one Es Ee :=
  rewrite ?filter_cons, ?filter_nil; repeat case_decide;
  unfold startsAt, arrivesAt, startParses, validTrip in *;
  rewrite ?Es, ?Ee in *; simpl in *;
  rewrite ?app_nil_r; try done; try lia; try (intuition congruence).

(** ** Arrays: slices as runs of buckets *)

Section Slices.
Context {T : Type}.
Implicit Types (idx : list (list T)) (l : list T).

Lemma relative_in_range (len k : Z) :
  0 <= k <= len -> JS.relative len k = k.
Proof.
  intros Hk. unfold JS.relative.
  destruct (Z.ltb_spec k 0); lia.
Qed.

Lemma slice_range {A} (a : list A) (lo hi : Z) :
  0 <= lo -> lo <= hi -> hi <= Z.of_nat (length a) ->
  JS.slice a lo (Some hi)
  = take (Z.to_nat hi - Z.to_nat lo) (drop (Z.to_nat lo) a).
Proof.
  intros Hlo Hle Hhi. unfold JS.slice.
  rewrite !relative_in_range by lia. f_equal. lia.
Qed.

Lemma slice_from {A} (a : list A) (lo : Z) :
  0 <= lo <= Z.of_nat (length a) ->
  JS.slice a lo None = take (length a - Z.to_nat lo) (drop (Z.to_nat lo) a).
Proof.
  intros Hlo. unfold JS.slice.
  rewrite relative_in_range by lia. f_equal. lia.
Qed.

Lemma take_drop_bucket idx (lo n : nat) :
  (lo + n <= length idx)%nat ->
  take n (drop lo idx) = bucket idx <$> seq lo n.
Proof.
  intros Hlen. apply list_eq. intros i.
  rewrite list_lookup_fmap.
  destruct (decide (i < n)%nat) as [Hi|Hi].
  - rewrite lookup_take_lt, lookup_drop by done.
    rewrite lookup_seq_lt by done. simpl. unfold bucket.
    destruct (lookup_lt_is_Some_2 idx (lo + i)) as [b Hb]; [lia|].
    by rewrite Hb.
  - rewrite lookup_take_ge by lia.
    by rewrite lookup_seq_ge by lia.
Qed.

Lemma concat_take_drop idx (lo hi : nat) :
  (hi <= length idx)%nat ->
  concat (take (hi - lo) (drop lo idx)) = buckets idx lo hi.
Proof.
  intros Hhi. unfold buckets.
  destruct (decide (lo <= hi)%nat) as [Hle|Hgt].
  - by rewrite take_drop_bucket by lia.
  - by replace (hi - lo)%nat with 0%nat by lia.
Qed.

Lemma buckets_all idx : concat idx = buckets idx 0 (length idx).
Proof.
  rewrite <- concat_take_drop by done.
  rewrite drop_0, Nat.sub_0_r. by rewrite firstn_all.
Qed.

Lemma elem_of_concat (ls : list (list T)) (t : T) :
  t ∈ concat ls <-> exists b, t ∈ b /\ b ∈ ls.
Proof.
  induction ls as [|b ls IH]; simpl.
  - split; [by intros ?%elem_of_nil | by intros (b & _ & ?%elem_of_nil)].
  - rewrite elem_of_app, IH. split.
    + intros [Ht|(b' & Ht & Hb')]; [exists b | exists b'];
        (split; [done|]); [left | by right].
    + intros (b' & Ht & Hb'). apply elem_of_cons in Hb' as [->|Hb'];
        [by left | right; by exists b'].
Qed.

Lemma elem_of_buckets idx (lo hi : nat) (t : T) :
  t ∈ buckets idx lo hi <-> exists m, (lo <= m < hi)%nat /\ t ∈ bucket idx m.
Proof.
  unfold buckets. rewrite elem_of_concat. split.
  - intros (b & Ht & Hb). apply list_elem_of_fmap in Hb as (m & -> & Hm).
    apply elem_of_seq in Hm. exists m. split; [lia|done].
  - intros (m & Hm & Ht). exists (bucket idx m). split; [done|].
    apply list_elem_of_fmap. exists m. split; [done|].
    apply elem_of_seq. lia.
Qed.

Lemma bucket_insert_ne idx (k m : nat) (b : list T) :
  k <> m -> bucket (<[k:=b]> idx) m = bucket idx m.
Proof. intros Hne. unfold bucket. by rewrite list_lookup_insert_ne. Qed.

Lemma bucket_fmap_insert_outside idx (k : nat) (b : list T) (ms : list nat) :
  k ∉ ms -> bucket (<[k:=b]> idx) <$> ms = bucket idx <$> ms.
Proof.
  intros Hk. apply list_fmap_ext. intros i m Hm.
  apply bucket_insert_ne. intros ->. apply Hk.
  by apply list_elem_of_lookup_2 in Hm.
Qed.

End Slices.

(** ** The window of [filterByMinute] *)

Section Window.
Context {T : Type}.
Implicit Types (idx : list (list T)).

(** The two bounds that [filterByMinute] computes from a minute of day. *)
Lemma window_bounds (c : Z) :
  0 <= c <= 1439 ->
  JS.rem (c - 60 + 1440) 1440 = (c - 60 + 1440) `mod` 1440
  /\ JS.rem (c + 60) 1440 = (c + 60) `mod` 1440
  /\ (c - 60 + 1440) `mod` 1440 = (if c <? 60 then c + 1380 else c - 60)
  /\ (c + 60) `mod` 1440 = (if c <? 1380 then c + 60 else c - 1380).
Proof.
  intros Hc. unfold JS.rem.
  rewrite !Z.rem_mod_nonneg by lia.
  repeat split.
  - destruct (Z.ltb_spec c 60).
    + rewrite Z.mod_small by lia. lia.
    + replace (c - 60 + 1440) with (c - 60 + 1 * 1440) by lia.
      rewrite Z.mod_add by lia. apply Z.mod_small. lia.
  - destruct (Z.ltb_spec c 1380).
    + apply Z.mod_small. lia.
    + replace (c + 60) with (c - 1380 + 1 * 1440) by lia.
      rewrite Z.mod_add by lia. apply Z.mod_small. lia.
Qed.

Lemma filterByMinute_buckets idx (c : Z) :
  length idx = 1440%nat -> 0 <= c <= 1439 ->
  filterByMinute idx c =
    let minMinute := (c - 60 + 1440) `mod` 1440 in
    let maxMinute := (c + 60) `mod` 1440 in
    if minMinute >? maxMinute then
      buckets idx (Z.to_nat minMinute) 1440
      ++ buckets idx 0 (Z.to_nat maxMinute)
    else buckets idx (Z.to_nat minMinute) (Z.to_nat maxMinute).
Proof.
  intros Hlen Hc.
  destruct (window_bounds c Hc) as (Hmin & Hmax & Hlo & Hhi).
  unfold filterByMinute.
  destruct (Z.eqb_spec c (-1)) as [?|_]; [lia|].
  rewrite Hmin, Hmax. cbv zeta.
  assert (0 <= (c - 60 + 1440) `mod` 1440 < 1440) as Hlo'
    by (apply Z.mod_pos_bound; lia).
  assert (0 <= (c + 60) `mod` 1440 < 1440) as Hhi'
    by (apply Z.mod_pos_bound; lia).
  unfold JS.flat.
  destruct (Z.gtb_spec ((c - 60 + 1440) `mod` 1440) ((c + 60) `mod` 1440))
    as [Hwrap|Hflat].
  - rewrite slice_from, slice_range by lia.
    rewrite concat_app, Hlen.
    rewrite (concat_take_drop idx _ 1440) by lia.
    change (Z.to_nat 0) with 0%nat.
    by rewrite (concat_take_drop idx 0) by lia.
  - rewrite slice_range by lia.
    by rewrite concat_take_drop by lia.
Qed.

Lemma fmap_seq_shift (f : nat -> nat) (a s n : nat) :
  (forall k, (s <= k < s + n)%nat -> f k = (a + (k - s))%nat) ->
  f <$> seq s n = seq a n.
Proof.
  revert a s. induction n as [|n IH]; intros a s Hf; [done|].
  simpl. f_equal.
  - rewrite Hf by lia. lia.
  - apply IH. intros k Hk. rewrite Hf by lia. lia.
Qed.

Lemma seq_split (s n1 n2 : nat) :
  (n1 + n2 = 120)%nat -> seq s 120 = seq s n1 ++ seq (s + n1) n2.
Proof. intros <-. apply seq_app. Qed.

Lemma windowMinutes_seq (c : Z) :
  0 <= c <= 1439 ->
  windowMinutes c =
    let minMinute := (c - 60 + 1440) `mod` 1440 in
    let maxMinute := (c + 60) `mod` 1440 in
    if minMinute >? maxMinute then
      seq (Z.to_nat minMinute) (1440 - Z.to_nat minMinute)
      ++ seq 0 (Z.to_nat maxMinute)
    else seq (Z.to_nat minMinute) (Z.to_nat maxMinute - Z.to_nat minMinute).
Proof.
  intros Hc.
  destruct (window_bounds c Hc) as (_ & _ & Hlo & Hhi).
  cbv zeta. rewrite Hlo, Hhi. unfold windowMinutes.
  destruct (Z.ltb_spec c 60) as [Hc1|Hc1];
    destruct (Z.ltb_spec c 1380) as [Hc2|Hc2]; try lia.
  - destruct (Z.gtb_spec (c + 1380) (c + 60)) as [_|?]; [|lia].
    rewrite (seq_split 0 (1440 - Z.to_nat (c + 1380)) (Z.to_nat (c + 60)))
      by lia.
    rewrite fmap_app. f_equal.
    + apply fmap_seq_shift. intros k Hk.
      replace (c - 60 + Z.of_nat k)
        with (c - 60 + Z.of_nat k + 1440 + -1 * 1440) by lia.
      rewrite Z.mod_add by lia. rewrite Z.mod_small by lia. lia.
    + apply fmap_seq_shift. intros k Hk.
      rewrite Z.mod_small by lia. lia.
  - destruct (Z.gtb_spec (c - 60) (c + 60)) as [?|_]; [lia|].
    replace (Z.to_nat (c + 60) - Z.to_nat (c - 60))%nat with 120%nat by lia.
    apply fmap_seq_shift. intros k Hk.
    rewrite Z.mod_small by lia. lia.
  - destruct (Z.gtb_spec (c - 60) (c - 1380)) as [_|?]; [|lia].
    rewrite (seq_split 0 (1440 - Z.to_nat (c - 60)) (Z.to_nat (c - 1380)))
      by lia.
    rewrite fmap_app. f_equal.
    + apply fmap_seq_shift. intros k Hk.
      rewrite Z.mod_small by lia. lia.
    + apply fmap_seq_shift. intros k Hk.
      replace (c - 60 + Z.of_nat k)
        with (c - 60 + Z.of_nat k - 1440 + 1 * 1440) by lia.
      rewrite Z.mod_add by lia. rewrite Z.mod_small by lia. lia.
Qed.

Lemma filterByMinute_window idx (c : Z) :
  length idx = 1440%nat -> 0 <= c <= 1439 ->
  filterByMinute idx c = concat (bucket idx <$> windowMinutes c).
Proof.
  intros Hlen Hc.
  rewrite filterByMinute_buckets, windowMinutes_seq by done.
  cbv zeta.
  assert (0 <= (c - 60 + 1440) `mod` 1440 < 1440) as Hlo'
    by (apply Z.mod_pos_bound; lia).
  destruct (_ >? _).
  - rewrite fmap_app, concat_app. unfold buckets.
    repeat f_equal; lia.
  - done.
Qed.

Lemma windowMinutes_length (c : Z) : length (windowMinutes c) = 120%nat.
Proof. unfold windowMinutes. by rewrite length_fmap, length_seq. Qed.

Lemma windowMinutes_lt (c : Z) (m : nat) :
  m ∈ windowMinutes c -> (m < 1440)%nat.
Proof.
  unfold windowMinutes. intros (k & -> & _)%list_elem_of_fmap.
  pose proof (Z.mod_pos_bound (c - 60 + Z.of_nat k) 1440). lia.
Qed.

Lemma windowMinutes_NoDup (c : Z) :
  0 <= c <= 1439 -> NoDup (windowMinutes c).
Proof.
  intros Hc. rewrite windowMinutes_seq by done. cbv zeta.
  assert (0 <= (c - 60 + 1440) `mod` 1440 < 1440) as Hlo'
    by (apply Z.mod_pos_bound; lia).
  destruct (Z.gtb_spec ((c - 60 + 1440) `mod` 1440) ((c + 60) `mod` 1440)).
  - apply NoDup_app. split; [apply NoDup_seq|].
    split; [|apply NoDup_seq].
    intros m Hm1 Hm2. apply elem_of_seq in Hm1, Hm2. lia.
  - apply NoDup_seq.
Qed.

Lemma elem_of_windowMinutes (c : Z) (m : nat) :
  m ∈ windowMinutes c <->
  exists k, 0 <= k < 120 /\ m = Z.to_nat ((c - 60 + k) `mod` 1440).
Proof.
  unfold windowMinutes. rewrite list_elem_of_fmap. split.
  - intros (k & -> & Hk%elem_of_seq). exists (Z.of_nat k). split; [lia|done].
  - intros (k & Hk & ->). exists (Z.to_nat k). split.
    + by rewrite Z2Nat.id by lia.
    + apply elem_of_seq. lia.
Qed.

Lemma elem_of_filterByMinute idx (c : Z) (t : T) :
  length idx = 1440%nat -> 0 <= c <= 1439 ->
  t ∈ filterByMinute idx c <->
  exists m, m ∈ windowMinutes c /\ t ∈ bucket idx m.
Proof.
  intros Hlen Hc. rewrite filterByMinute_window by done.
  rewrite elem_of_concat. split.
  - intros (b & Ht & (m & -> & Hm)%list_elem_of_fmap). by exists m.
  - intros (m & Hm & Ht). exists (bucket idx m). split; [done|].
    apply list_elem_of_fmap. by exists m.
Qed.

End Window.

(** ** Statements that do not throw *)

Section Statements.

Lemma mapM_total {A B} (f : A -> M B) (g : A -> B)
    (step : A -> World -> World) :
  (forall a w, f a w = (Normal (g a), step a w)) ->
  forall l w, mapM f l w = (Normal (g <$> l), foldl (fun w a => step a w) w l).
Proof.
  intros Hf l. induction l as [|a l IH]; intros w; [done|].
  simpl. unfold mbind, M_bind at 1. rewrite Hf.
  unfold mbind, M_bind at 1. by rewrite IH.
Qed.

Lemma row_total (d : Trip) (w : World) : row d w = (Normal d, rowStep d w).
Proof.
  unfold row, rowStep, populate, try_catch, mbind, M_bind,
    departures_push, arrivals_push, mret, M_ret, pushAt.
  destruct (JS.index (departuresByMinute w) _) as [n|]; [|done].
  by destruct (JS.index (arrivalsByMinute _) _) as [k|].
Qed.

Lemma loadTrips_total (rows : list Trip) (w : World) :
  loadTrips rows w = (Normal rows, foldl (fun w d => rowStep d w) w rows).
Proof.
  unfold loadTrips. rewrite (mapM_total row id rowStep) by apply row_total.
  by rewrite list_fmap_id.
Qed.

End Statements.

(** ** Building the index *)

Section Build.
Implicit Types (idx : list (list Trip)) (d : Trip) (w : World).

Lemma index_minuteOf {A} (a : list A) (date : JS.Date) :
  length a = 1440%nat -> JS.Date_wf date ->
  JS.index a (minutesSinceMidnight date) = minuteOf date.
Proof.
  intros Hlen Hwf. destruct date as [|h m]; [done|].
  simpl in *. rewrite Hlen.
  destruct (Z.leb_spec 0 (h * 60 + m)); [|lia].
  destruct (Z.ltb_spec (h * 60 + m) (Z.of_nat 1440)); [done|lia].
Qed.

Lemma minuteOf_lt (date : JS.Date) (m : nat) :
  JS.Date_wf date -> minuteOf date = Some m -> (m < 1440)%nat.
Proof. destruct date as [|h k]; simpl; [done|]. intros Hwf [= <-]. lia. Qed.

Lemma minuteOf_isValid (date : JS.Date) :
  is_Some (minuteOf date) <-> JS.isValid date = true.
Proof.
  destruct date; simpl; split; try done.
Qed.

Lemma bucket_pushAt idx (n m : nat) d :
  (n < length idx)%nat ->
  bucket (pushAt n d idx) m
  = bucket idx m ++ (if decide (n = m) then [d] else []).
Proof.
  intros Hn. unfold bucket, pushAt. case_decide as Hnm.
  - subst m. rewrite list_lookup_alter_eq.
    destruct (lookup_lt_is_Some_2 idx n Hn) as [b ->]. done.
  - rewrite list_lookup_alter_ne by done. by rewrite app_nil_r.
Qed.

Lemma indexSize_pushAt idx (n : nat) d :
  (n < length idx)%nat -> indexSize (pushAt n d idx) = S (indexSize idx).
Proof.
  unfold indexSize, pushAt. revert n.
  induction idx as [|b idx IH]; intros n Hn; simpl in *; [lia|].
  destruct n as [|n]; simpl.
  - rewrite length_app. simpl. lia.
  - specialize (IH n). unfold alter in IH. rewrite IH by lia. lia.
Qed.

Lemma indexSize_concat {T} (idx : list (list T)) :
  indexSize idx = length (concat idx).
Proof.
  unfold indexSize. induction idx as [|b idx IH]; simpl; [done|].
  rewrite length_app. by rewrite IH.
Qed.

Lemma indexSize_from_length {T} (n : nat) :
  indexSize (@JS.from_length T n) = 0%nat.
Proof. unfold indexSize, JS.from_length. by induction n. Qed.

Lemma bucket_from_length {T} (n m : nat) : bucket (@JS.from_length T n) m = [].
Proof.
  unfold bucket, JS.from_length.
  destruct (replicate n [] !! m) eqn:E; [|done].
  by apply lookup_replicate_1 in E as [-> _].
Qed.

Lemma initialWorld_indexed (h : gmap positive Station) :
  indexed (initialWorld h).
Proof. split; apply length_replicate. Qed.

(** One row: what it adds to each bucket and to each size. *)
Lemma rowStep_effect d w :
  indexed w -> Trip_wf d ->
  indexed (rowStep d w)
  /\ heap (rowStep d w) = heap w
  /\ (forall m, bucket (departuresByMinute (rowStep d w)) m
                = bucket (departuresByMinute w) m
                  ++ filter (startsAt m) [d])
  /\ (forall m, bucket (arrivalsByMinute (rowStep d w)) m
                = bucket (arrivalsByMinute w) m
                  ++ filter (arrivesAt m) [d])
  /\ indexSize (departuresByMinute (rowStep d w))
     = (indexSize (departuresByMinute w)
        + length (filter startParses [d]))%nat
  /\ indexSize (arrivalsByMinute (rowStep d w))
     = (indexSize (arrivalsByMinute w)
        + length (filter (fun d => validTrip d = true) [d]))%nat.
Proof.
  intros [Hdep Harr] [Hs He]. unfold rowStep.
  rewrite index_minuteOf by done.
  destruct (started_at d) as [|h m] eqn:Es.
  { simpl. repeat split; try done; intros; filter_one Es Es. }
  assert (Z.to_nat (h * 60 + m) < 1440)%nat as Hlt by (simpl in Hs; lia).
  cbn [minuteOf]. cbv zeta.
  rewrite index_minuteOf;
    [|by (simpl; unfold pushAt; rewrite ?length_alter)|done].
  destruct (ended_at d) as [|h' m'] eqn:Ee.
  - simpl. unfold indexed. simpl. unfold pushAt at 1.
    rewrite length_alter.
    repeat split; try done; intros;
      rewrite ?bucket_pushAt, ?indexSize_pushAt by lia;
      filter_one Es Ee.
  - assert (Z.to_nat (h' * 60 + m') < 1440)%nat as Hlt'
      by (simpl in He; lia).
    simpl. unfold indexed. simpl. unfold pushAt at 1 2.
    rewrite !length_alter.
    repeat split; try done; intros;
      rewrite ?bucket_pushAt, ?indexSize_pushAt by lia;
      filter_one Es Ee.
Qed.

Lemma exec_loadTrips (rows : list Trip) w :
  exec (loadTrips rows) w = foldl (fun w d => rowStep d w) w rows.
Proof. unfold exec. by rewrite loadTrips_total. Qed.

(** All rows: the same, by induction on the file. *)
Lemma loadTrips_effect (rows : list Trip) w :
  indexed w -> Forall Trip_wf rows ->
  indexed (exec (loadTrips rows) w)
  /\ heap (exec (loadTrips rows) w) = heap w
  /\ (forall m, bucket (departuresByMinute (exec (loadTrips rows) w)) m
                = bucket (departuresByMinute w) m
                  ++ filter (startsAt m) rows)
  /\ (forall m, bucket (arrivalsByMinute (exec (loadTrips rows) w)) m
                = bucket (arrivalsByMinute w) m
                  ++ filter (arrivesAt m) rows)
  /\ indexSize (departuresByMinute (exec (loadTrips rows) w))
     = (indexSize (departuresByMinute w)
        + length (filter startParses rows))%nat
  /\ indexSize (arrivalsByMinute (exec (loadTrips rows) w))
     = (indexSize (arrivalsByMinute w)
        + length (filter (fun d => validTrip d = true) rows))%nat.
Proof.
  rewrite exec_loadTrips. revert w.
  induction rows as [|d rows IH]; intros w Hw Hwf.
  { simpl. repeat split; try apply Hw; intros;
      rewrite ?filter_nil, ?app_nil_r; simpl; try done; lia. }
  apply Forall_cons in Hwf as [Hd Hrows].
  destruct (rowStep_effect d w Hw Hd) as (Hw1 & Hh1 & Hd1 & Ha1 & Hsd1 & Hsa1).
  destruct (IH (rowStep d w) Hw1 Hrows) as (Hw2 & Hh2 & Hd2 & Ha2 & Hsd2 & Hsa2).
  simpl. repeat split; try apply Hw2.
  - by rewrite Hh2.
  - intros m. rewrite Hd2, Hd1, <- app_assoc. f_equal.
    by rewrite <- filter_app.
  - intros m. rewrite Ha2, Ha1, <- app_assoc. f_equal.
    by rewrite <- filter_app.
  - rewrite Hsd2, Hsd1, <- Nat.add_assoc, <- length_app.
    by rewrite <- filter_app.
  - rewrite Hsa2, Hsa1, <- Nat.add_assoc, <- length_app.
    by rewrite <- filter_app.
Qed.

(** The index built from the empty arrays of lines 21-22. *)
Lemma build_effect (rows : list Trip) (h : gmap positive Station) :
  Forall Trip_wf rows ->
  let w := exec (loadTrips rows) (initialWorld h) in
  indexed w
  /\ heap w = h
  /\ (forall m, bucket (departuresByMinute w) m = filter (startsAt m) rows)
  /\ (forall m, bucket (arrivalsByMinute w) m = filter (arrivesAt m) rows)
  /\ indexSize (departuresByMinute w) = length (filter startParses rows)
  /\ indexSize (arrivalsByMinute w) = validTripCount rows.
Proof.
  intros Hwf w.
  destruct (loadTrips_effect rows (initialWorld h)
              (initialWorld_indexed h) Hwf) as (Hw & Hh & Hd & Ha & Hsd & Hsa).
  fold w in Hw, Hh, Hd, Ha, Hsd, Hsa.
  split; [exact Hw|]. split; [exact Hh|].
  split; [|split; [|split]].
  - intros m. rewrite Hd. unfold initialWorld.
    cbn [departuresByMinute]. by rewrite bucket_from_length.
  - intros m. rewrite Ha. unfold initialWorld.
    cbn [arrivalsByMinute]. by rewrite bucket_from_length.
  - rewrite Hsd. unfold initialWorld.
    cbn [departuresByMinute]. by rewrite indexSize_from_length.
  - rewrite Hsa. unfold initialWorld.
    cbn [arrivalsByMinute]. by rewrite indexSize_from_length.
Qed.

(** The row callback never lets an exception out. *)
Lemma loadTrips_returns (rows : list Trip) w :
  result (loadTrips rows) w = Normal rows.
Proof. unfold result. by rewrite loadTrips_total. Qed.

End Build.

(** ** Counting by station and writing to the roster *)

Section Aggregate.
Implicit Types (trips depTrips arrTrips : list Trip) (s : Station).
Implicit Types (h : gmap positive Station) (stations : list positive).

Lemma group_foldl_lookup {T} (key : T -> string) (values : list T)
    (groups : gmap string (list T)) (id : string) :
  foldl (fun groups v =>
           <[key v := default [] (groups !! key v) ++ [v]]> groups)
        groups values !! id
  = match filter (fun v => key v = id) values with
    | [] => groups !! id
    | g => Some (default [] (groups !! id) ++ g)
    end.
Proof.
  revert groups. induction values as [|v values IH]; intros groups; [done|].
  simpl. rewrite IH. rewrite filter_cons.
  destruct (decide (key v = id)) as [Hk|Hk].
  - subst id. rewrite lookup_insert_eq. simpl.
    destruct (filter _ values); [done|]. by rewrite <- app_assoc.
  - by rewrite lookup_insert_ne by done.
Qed.

Lemma group_lookup {T} (key : T -> string) (values : list T) (id : string) :
  D3.group values key !! id
  = match filter (fun v => key v = id) values with
    | [] => None
    | g => Some g
    end.
Proof. unfold D3.group. rewrite group_foldl_lookup. by destruct (filter _ _). Qed.

(** [counts.get(id) ?? 0] is the number of trips whose key is [id]. *)
Lemma rollup_count (key : Trip -> string) trips (id : string) :
  JS.nullish
    (D3.rollup trips (fun v => JS.Int (Z.of_nat (length v))) key !! id)
    (JS.Int 0)
  = JS.Int (countBy key id trips).
Proof.
  unfold D3.rollup, countBy. rewrite lookup_fmap, group_lookup.
  by destruct (filter _ trips).
Qed.

Lemma writeTraffic_withTraffic depTrips arrTrips s :
  writeTraffic
    (D3.rollup depTrips (fun v => JS.Int (Z.of_nat (length v)))
       start_station_id)
    (D3.rollup arrTrips (fun v => JS.Int (Z.of_nat (length v)))
       end_station_id) s
  = withTraffic depTrips arrTrips s.
Proof.
  unfold writeTraffic, withTraffic. cbn [short_name lat lon departures arrivals].
  by rewrite !rollup_count.
Qed.

Lemma withTraffic_idemp depTrips arrTrips s :
  withTraffic depTrips arrTrips (withTraffic depTrips arrTrips s)
  = withTraffic depTrips arrTrips s.
Proof. done. Qed.

Lemma foldl_alter_lookup (f : Station -> Station) stations h (l : positive) :
  (forall s, f (f s) = f s) ->
  foldl (fun h l => alter f l h) h stations !! l
  = if decide (l ∈ stations) then f <$> h !! l else h !! l.
Proof.
  intros Hf. revert h.
  induction stations as [|a stations IH]; intros h; cbn [foldl].
  - destruct (decide (l ∈ [])) as [Hin|_];
      [by apply elem_of_nil in Hin|done].
  - rewrite IH. destruct (decide (a = l)) as [->|Hne].
    + rewrite lookup_alter_eq.
      destruct (decide (l ∈ l :: stations)) as [_|Hn];
        [|exfalso; apply Hn; apply elem_of_cons; by left].
      destruct (decide (l ∈ stations)); [|done].
      destruct (h !! l); simpl; [|done]. by rewrite Hf.
    + rewrite lookup_alter_ne by done.
      destruct (decide (l ∈ stations)) as [Hin|Hin];
        destruct (decide (l ∈ a :: stations)) as [Hin'|Hin'];
        try done; exfalso.
      * apply Hin'. apply elem_of_cons. by right.
      * apply elem_of_cons in Hin' as [?|?]; [congruence|done].
Qed.

Lemma aggregateHeap_lookup stations depTrips arrTrips h (l : positive) :
  aggregateHeap stations depTrips arrTrips h !! l
  = if decide (l ∈ stations) then withTraffic depTrips arrTrips <$> h !! l
    else h !! l.
Proof.
  unfold aggregateHeap. cbv zeta.
  rewrite foldl_alter_lookup.
  - case_decide; [|done].
    destruct (h !! l); simpl; [|done]. by rewrite writeTraffic_withTraffic.
  - intros s. by rewrite !writeTraffic_withTraffic.
Qed.

Lemma foldl_set_heap (f : positive -> Station -> Station) stations w :
  foldl (fun w l => set_heap (alter (f l) l) w) w stations
  = set_heap (fun h => foldl (fun h l => alter (f l) l h) h stations) w.
Proof.
  revert w. induction stations as [|a stations IH]; intros w; simpl.
  - by destruct w.
  - by rewrite IH.
Qed.

Lemma aggregate_total stations depTrips arrTrips w :
  aggregate stations depTrips arrTrips w
  = (Normal stations,
     set_heap (aggregateHeap stations depTrips arrTrips) w).
Proof.
  unfold aggregate. cbv zeta.
  erewrite (mapM_total _ id
              (fun l => set_heap (alter (writeTraffic _ _) l))) by done.
  rewrite list_fmap_id. f_equal.
  by rewrite (foldl_set_heap (fun _ => writeTraffic _ _)).
Qed.

Lemma computeStationTraffic_total stations (timeFilter : Z) w :
  computeStationTraffic stations timeFilter w
  = (Normal stations,
     set_heap
       (aggregateHeap stations
          (filterByMinute (departuresByMinute w) timeFilter)
          (filterByMinute (arrivalsByMinute w) timeFilter)) w).
Proof.
  unfold computeStationTraffic, get_world, mbind, M_bind. cbv zeta.
  apply aggregate_total.
Qed.

End Aggregate.

(** ** Totals over the roster *)

Section Totals.
Implicit Types (trips depTrips arrTrips : list Trip) (ids : list string).
Implicit Types (h : gmap positive Station) (stations : list positive).

Lemma sumOver_ext (f g : string -> Z) ids :
  (forall id, f id = g id) -> sumOver f ids = sumOver g ids.
Proof.
  intros Hfg. unfold sumOver.
  induction ids as [|i ids IH]; simpl; [done|]. by rewrite Hfg, IH.
Qed.

Lemma sumOver_zero (f : string -> Z) ids :
  (forall id, f id = 0) -> sumOver f ids = 0.
Proof.
  intros Hf. unfold sumOver.
  induction ids as [|i ids IH]; simpl; [done|]. by rewrite Hf, IH.
Qed.

Lemma sumOver_add (f g : string -> Z) ids :
  sumOver (fun id => f id + g id) ids = sumOver f ids + sumOver g ids.
Proof.
  unfold sumOver. induction ids as [|i ids IH]; simpl; [done|].
  rewrite IH. lia.
Qed.

Lemma sumOver_indicator_absent (k : string) ids :
  k ∉ ids -> sumOver (fun id => if decide (k = id) then 1 else 0) ids = 0.
Proof.
  unfold sumOver. induction ids as [|i ids IH]; simpl; [done|].
  intros Hk. apply not_elem_of_cons in Hk as [Hne Hk].
  rewrite IH by done. by rewrite decide_False by done.
Qed.

Lemma sumOver_indicator_present (k : string) ids :
  NoDup ids -> k ∈ ids ->
  sumOver (fun id => if decide (k = id) then 1 else 0) ids = 1.
Proof.
  induction ids as [|i ids IH]; intros Hnd Hk.
  - by apply elem_of_nil in Hk.
  - apply NoDup_cons in Hnd as [Hi Hnd].
    unfold sumOver. simpl. fold (sumOver (fun id => if decide (k = id) then 1 else 0) ids).
    destruct (decide (k = i)) as [->|Hne].
    + by rewrite sumOver_indicator_absent.
    + apply elem_of_cons in Hk as [?|Hk]; [done|]. by rewrite IH.
Qed.

Lemma countBy_cons (key : Trip -> string) (id : string) (t : Trip) trips :
  countBy key id (t :: trips)
  = (if decide (key t = id) then 1 else 0) + countBy key id trips.
Proof.
  unfold countBy. rewrite filter_cons.
  destruct (decide (key t = id)); simpl length; lia.
Qed.

(** Every trip whose key is on a duplicate-free roster is counted once. *)
Lemma sumOver_countBy (key : Trip -> string) trips ids :
  NoDup ids -> (forall t, t ∈ trips -> key t ∈ ids) ->
  sumOver (fun id => countBy key id trips) ids = Z.of_nat (length trips).
Proof.
  intros Hnd. induction trips as [|t trips IH]; intros Hkeys.
  - by apply sumOver_zero.
  - rewrite (sumOver_ext _ _ ids (fun id => countBy_cons key id t trips)).
    rewrite sumOver_add, IH.
    + rewrite sumOver_indicator_present; [simpl length; lia|done|].
      apply Hkeys, elem_of_cons. by left.
    + intros t' Ht'. apply Hkeys, elem_of_cons. by right.
Qed.

(** The total of the roster after [aggregate], station by station. *)
Lemma sumTotalTraffic_aggregate stations depTrips arrTrips (w : World)
    (sub : list positive) :
  (forall l, l ∈ sub -> l ∈ stations /\ is_Some (heap w !! l)) ->
  sumTotalTraffic
    (set_heap (aggregateHeap stations depTrips arrTrips) w) sub
  = sumOver (fun id => countBy start_station_id id depTrips
                       + countBy end_station_id id arrTrips)
      (rosterIds (heap w) sub).
Proof.
  induction sub as [|l sub IH]; intros Hsub; [done|].
  destruct (Hsub l) as [Hl [s Hs]]; [apply elem_of_cons; by left|].
  unfold sumTotalTraffic, rosterIds in *. cbn [foldr omap list_omap].
  rewrite IH by (intros l' Hl'; apply Hsub, elem_of_cons; by right).
  cbn [heap set_heap]. rewrite aggregateHeap_lookup.
  rewrite decide_True by done. rewrite Hs. simpl. done.
Qed.

End Totals.

(** ** The window query: checked statements *)

Section WindowClaims.
Context {T : Type}.
Implicit Types (idx : list (list T)).

Lemma elem_of_windowMinutes_interval (c : Z) (m : nat) :
  0 <= c <= 1439 ->
  m ∈ windowMinutes c <->
    let minMinute := (c - 60 + 1440) `mod` 1440 in
    let maxMinute := (c + 60) `mod` 1440 in
    if minMinute >? maxMinute then
      (Z.to_nat minMinute <= m < 1440)%nat \/ (m < Z.to_nat maxMinute)%nat
    else (Z.to_nat minMinute <= m < Z.to_nat maxMinute)%nat.
Proof.
  intros Hc. rewrite windowMinutes_seq by done. cbv zeta.
  assert (0 <= (c - 60 + 1440) `mod` 1440 < 1440) as Hlo
    by (apply Z.mod_pos_bound; lia).
  destruct (Z.gtb_spec ((c - 60 + 1440) `mod` 1440) ((c + 60) `mod` 1440)).
  - rewrite elem_of_app, !elem_of_seq. lia.
  - rewrite elem_of_seq. lia.
Qed.

Lemma elem_of_filterByMinute_offset idx (c : Z) (t : T) :
  length idx = 1440%nat -> 0 <= c <= 1439 ->
  t ∈ filterByMinute idx c <->
  exists k, (-60 <= k < 60)
            /\ t ∈ bucket idx (Z.to_nat ((c + k) `mod` 1440)).
Proof.
  intros Hlen Hc. rewrite elem_of_filterByMinute by done. split.
  - intros (m & (k & Hk & ->)%elem_of_windowMinutes & Ht).
    exists (k - 60). split; [lia|].
    by replace (c + (k - 60)) with (c - 60 + k) by lia.
  - intros (k & Hk & Ht). eexists. split; [|exact Ht].
    apply elem_of_windowMinutes. exists (k + 60). split; [lia|].
    by replace (c - 60 + (k + 60)) with (c + k) by lia.
Qed.

Lemma filterByMinute_insert_outside idx (c : Z) (k : nat) (b : list T) :
  length idx = 1440%nat -> 0 <= c <= 1439 -> k ∉ windowMinutes c ->
  filterByMinute (<[k:=b]> idx) c = filterByMinute idx c.
Proof.
  intros Hlen Hc Hk.
  rewrite !filterByMinute_window by (by rewrite ?length_insert).
  by rewrite bucket_fmap_insert_outside.
Qed.

(** C1, as the code has it: for a minute of day [centerMinute], with
    [minMinute = (centerMinute - 60 + 1440) mod 1440] (no [+ 1]) and
    [maxMinute = (centerMinute + 60) mod 1440], [filterByMinute] returns
    the trips of the buckets [minMinute, maxMinute), in bucket order; when
    [minMinute > maxMinute] these are the buckets [minMinute, 1440)
    followed by the buckets [0, maxMinute). For [centerMinute = 700] the
    result is exactly buckets 640..759: a trip is returned if and only if
    it lies in one of them, and neither bucket 639 nor bucket 760 has any
    influence on the result. *)
Theorem filterByMinute_half_open_window idx (centerMinute : Z) :
  length idx = 1440%nat -> 0 <= centerMinute <= 1439 ->
  let minMinute := (centerMinute - 60 + 1440) `mod` 1440 in
  let maxMinute := (centerMinute + 60) `mod` 1440 in
  JS.rem (centerMinute - 60 + 1440) 1440 = minMinute
  /\ JS.rem (centerMinute + 60) 1440 = maxMinute
  /\ filterByMinute idx centerMinute
     = (if minMinute >? maxMinute then
          buckets idx (Z.to_nat minMinute) 1440
          ++ buckets idx 0 (Z.to_nat maxMinute)
        else buckets idx (Z.to_nat minMinute) (Z.to_nat maxMinute))
  /\ filterByMinute idx 700 = buckets idx 640 760
  /\ (forall t, t ∈ filterByMinute idx 700 <->
                exists m, (640 <= m < 760)%nat /\ t ∈ bucket idx m)
  /\ (forall b, filterByMinute (<[639%nat:=b]> idx) 700
                = filterByMinute idx 700)
  /\ (forall b, filterByMinute (<[760%nat:=b]> idx) 700
                = filterByMinute idx 700).
Proof.
  intros Hlen Hc minMinute maxMinute.
  destruct (window_bounds centerMinute Hc) as (Hmin & Hmax & _ & _).
  assert (filterByMinute idx 700 = buckets idx 640 760) as H700.
  { rewrite filterByMinute_buckets by (done || lia). reflexivity. }
  split; [done|]. split; [done|].
  split; [by apply filterByMinute_buckets|].
  split; [done|]. split.
  { intros t. rewrite H700. apply elem_of_buckets. }
  assert (forall k : nat, (k < 640 \/ 760 <= k)%nat -> k ∉ windowMinutes 700)
    as Hout.
  { intros k Hk Hin.
    apply elem_of_windowMinutes_interval in Hin; [|lia].
    change (640 <= k < 760)%nat in Hin. lia. }
  split; intros b; apply filterByMinute_insert_outside;
    try done; try lia; apply Hout; lia.
Qed.

(** C5: for every minute of day, the window of [filterByMinute] is made of
    exactly 120 distinct minutes of the 1440-minute circle, namely the
    half-open circular interval from the [minMinute] to the [maxMinute]
    that the code computes, and the returned list is the concatenation of
    exactly those 120 buckets. *)
Theorem filterByMinute_covers_120_minutes idx (centerMinute : Z) :
  length idx = 1440%nat -> 0 <= centerMinute <= 1439 ->
  let minMinute := JS.rem (centerMinute - 60 + 1440) 1440 in
  let maxMinute := JS.rem (centerMinute + 60) 1440 in
  length (windowMinutes centerMinute) = 120%nat
  /\ NoDup (windowMinutes centerMinute)
  /\ (forall m, m ∈ windowMinutes centerMinute -> (m < 1440)%nat)
  /\ (forall m, m ∈ windowMinutes centerMinute <->
        if minMinute >? maxMinute then
          (Z.to_nat minMinute <= m < 1440)%nat
          \/ (m < Z.to_nat maxMinute)%nat
        else (Z.to_nat minMinute <= m < Z.to_nat maxMinute)%nat)
  /\ filterByMinute idx centerMinute
     = concat (bucket idx <$> windowMinutes centerMinute)
  /\ length (bucket idx <$> windowMinutes centerMinute) = 120%nat.
Proof.
  intros Hlen Hc minMinute maxMinute.
  destruct (window_bounds centerMinute Hc) as (Hmin & Hmax & _ & _).
  split; [apply windowMinutes_length|].
  split; [by apply windowMinutes_NoDup|].
  split; [apply windowMinutes_lt|].
  split.
  { intros m. unfold minMinute, maxMinute. rewrite Hmin, Hmax.
    by apply elem_of_windowMinutes_interval. }
  split; [by apply filterByMinute_window|].
  by rewrite length_fmap, windowMinutes_length.
Qed.

(** C7: with the sentinel [-1] as the minute, [filterByMinute] returns the
    flattening of the whole index, that is of its 1440 buckets in bucket
    order, without any selection. *)
Theorem filterByMinute_no_filter idx :
  length idx = 1440%nat ->
  filterByMinute idx (-1) = JS.flat idx
  /\ filterByMinute idx (-1) = concat idx
  /\ filterByMinute idx (-1) = buckets idx 0 1440.
Proof.
  intros Hlen. assert (filterByMinute idx (-1) = concat idx) as H by done.
  split; [done|]. split; [done|].
  rewrite H, <- Hlen. apply buckets_all.
Qed.

(** C10: for every minute of day [m], a trip is returned by
    [filterByMinute] exactly when it lies in a bucket at offset [k] from
    [m] with [-60 <= k < 60] on the 1440-minute circle. The bucket of
    minute [(m - 60 + 1440) mod 1440] and the bucket of [m] are part of
    the window; the bucket of minute [(m + 60) mod 1440] is not: what it
    holds has no influence on the result. *)
Theorem filterByMinute_window_asymmetric idx (m : Z) :
  length idx = 1440%nat -> 0 <= m <= 1439 ->
  let first := Z.to_nat ((m - 60 + 1440) `mod` 1440) in
  let beyond := Z.to_nat ((m + 60) `mod` 1440) in
  (forall t, t ∈ filterByMinute idx m <->
     exists k, (-60 <= k < 60)
               /\ t ∈ bucket idx (Z.to_nat ((m + k) `mod` 1440)))
  /\ (forall t, t ∈ bucket idx first -> t ∈ filterByMinute idx m)
  /\ (forall t, t ∈ bucket idx (Z.to_nat m) -> t ∈ filterByMinute idx m)
  /\ first ∈ windowMinutes m
  /\ Z.to_nat m ∈ windowMinutes m
  /\ (beyond ∉ windowMinutes m)
  /\ (forall b, filterByMinute (<[beyond:=b]> idx) m = filterByMinute idx m).
Proof.
  intros Hlen Hm first beyond.
  destruct (window_bounds m Hm) as (_ & _ & Hlo & Hhi).
  assert (first ∈ windowMinutes m) as Hfirst.
  { apply elem_of_windowMinutes. exists 0. split; [lia|].
    unfold first. f_equal. rewrite Z.add_0_r.
    replace (m - 60 + 1440) with (m - 60 + 1 * 1440) by lia.
    by rewrite Z.mod_add by lia. }
  assert (Z.to_nat m ∈ windowMinutes m) as Hcenter.
  { apply elem_of_windowMinutes. exists 60. split; [lia|].
    f_equal. replace (m - 60 + 60) with m by lia.
    by rewrite Z.mod_small by lia. }
  assert (beyond ∉ windowMinutes m) as Hbeyond.
  { intros Hin. apply elem_of_windowMinutes_interval in Hin; [|done].
    cbv zeta in Hin. unfold beyond in Hin. rewrite Hlo, Hhi in Hin.
    destruct (Z.ltb_spec m 60); destruct (Z.ltb_spec m 1380);
      match type of Hin with
      | context [?a >? ?b] => destruct (Z.gtb_spec a b)
      end; lia. }
  split; [intros t; by apply elem_of_filterByMinute_offset|].
  split.
  { intros t Ht. apply elem_of_filterByMinute; [done..|]. by exists first. }
  split.
  { intros t Ht. apply elem_of_filterByMinute; [done..|].
    by exists (Z.to_nat m). }
  split; [done|]. split; [done|]. split; [done|].
  intros b. by apply filterByMinute_insert_outside.
Qed.

End WindowClaims.

(** A wrapping window on the sample index: minute 10 reaches back to 1390. *)
Lemma filterByMinute_half_open_window_witness :
  length Sample.idx640 = 1440%nat
  /\ 0 <= 10 <= 1439
  /\ filterByMinute Sample.idx640 10
     = buckets Sample.idx640 1390 1440 ++ buckets Sample.idx640 0 70.
Proof.
  split; [reflexivity|]. split; [lia|].
  pose proof (filterByMinute_half_open_window Sample.idx640 10
                eq_refl ltac:(lia)) as H.
  cbv zeta in H. destruct H as (_ & _ & H & _). exact H.
Defined.

(** C1 as worded fails on the code: with one trip in bucket 640 and nothing
    else, the query at minute 700 returns that trip, while the window of the
    specification ([minMinute = 641]) is empty. *)
Lemma filterByMinute_700_returns_bucket_640 :
  length Sample.idx640 = 1440%nat
  /\ bucket Sample.idx640 640 = [Sample.tripAB]
  /\ filterByMinute Sample.idx640 700 = [Sample.tripAB]
  /\ spec_Resolve Sample.idx640 700 = []
  /\ buckets Sample.idx640 641 760 = []
  /\ filterByMinute Sample.idx640 700 <> spec_Resolve Sample.idx640 700.
Proof.
  split; [reflexivity|]. split; [reflexivity|].
  split; [vm_compute; reflexivity|]. split; [vm_compute; reflexivity|].
  split; [vm_compute; reflexivity|]. vm_compute. discriminate.
Defined.

Lemma filterByMinute_covers_120_minutes_witness :
  length Sample.idx640 = 1440%nat
  /\ 0 <= 1400 <= 1439
  /\ length (windowMinutes 1400) = 120%nat
  /\ NoDup (windowMinutes 1400)
  /\ filterByMinute Sample.idx640 1400
     = concat (bucket Sample.idx640 <$> windowMinutes 1400).
Proof.
  split; [reflexivity|]. split; [lia|].
  pose proof (filterByMinute_covers_120_minutes Sample.idx640 1400
                eq_refl ltac:(lia)) as H.
  cbv zeta in H. destruct H as (H1 & H2 & _ & _ & H3 & _). auto.
Defined.

Lemma filterByMinute_no_filter_witness :
  length Sample.idx640 = 1440%nat
  /\ filterByMinute Sample.idx640 (-1) = buckets Sample.idx640 0 1440.
Proof.
  split; [reflexivity|].
  apply (filterByMinute_no_filter Sample.idx640). reflexivity.
Defined.

Lemma filterByMinute_window_asymmetric_witness :
  length Sample.idx640 = 1440%nat
  /\ 0 <= 700 <= 1439
  /\ (forall t, t ∈ bucket Sample.idx640 640 ->
                t ∈ filterByMinute Sample.idx640 700)
  /\ (forall b, filterByMinute (<[760%nat:=b]> Sample.idx640) 700
                = filterByMinute Sample.idx640 700).
Proof.
  split; [reflexivity|]. split; [lia|].
  pose proof (filterByMinute_window_asymmetric Sample.idx640 700
                eq_refl ltac:(lia)) as H.
  cbv zeta in H. destruct H as (_ & H1 & _ & _ & _ & _ & H2).
  split; [exact H1 | exact H2].
Defined.

(** ** The index: checked statements *)

Section IndexClaims.
Implicit Types (rows : list Trip) (d : Trip) (h : gmap positive Station).

(** A row whose start does not parse reaches neither array. *)
Lemma bad_start_excluded rows h d (m : nat) :
  Forall Trip_wf rows -> JS.isValid (started_at d) = false ->
  let w := exec (loadTrips rows) (initialWorld h) in
  (d ∉ bucket (departuresByMinute w) m)
  /\ (d ∉ bucket (arrivalsByMinute w) m).
Proof.
  intros Hwf Hbad w.
  destruct (build_effect rows h Hwf) as (_ & _ & Hdep & Harr & _).
  fold w in Hdep, Harr. rewrite Hdep, Harr.
  split; intros [HP _]%list_elem_of_filter.
  - unfold startsAt in HP. destruct (started_at d); by simplify_eq/=.
  - destruct HP as [HP _]. unfold validTrip in HP.
    by rewrite Hbad in HP.
Qed.

(** A row whose two timestamps parse sits in one departure bucket, that of
    its start minute, and in one arrival bucket, that of its end minute. *)
Lemma valid_trip_slots rows h d :
  Forall Trip_wf rows -> d ∈ rows -> validTrip d = true ->
  let w := exec (loadTrips rows) (initialWorld h) in
  exists ms me : nat,
    minuteOf (started_at d) = Some ms /\ minuteOf (ended_at d) = Some me
    /\ (ms < 1440)%nat /\ (me < 1440)%nat
    /\ (forall m, d ∈ bucket (departuresByMinute w) m <-> m = ms)
    /\ (forall m, d ∈ bucket (arrivalsByMinute w) m <-> m = me).
Proof.
  intros Hwf Hd Hvalid w.
  destruct (build_effect rows h Hwf) as (_ & _ & Hdep & Harr & _).
  fold w in Hdep, Harr.
  pose proof (proj1 (Forall_forall _ _) Hwf d Hd) as [Hws Hwe].
  apply andb_true_iff in Hvalid as Hv. destruct Hv as [Hs He].
  apply minuteOf_isValid in Hs as [ms Hms], He as [me Hme].
  exists ms, me. split; [done|]. split; [done|].
  split; [by apply (minuteOf_lt (started_at d))|].
  split; [by apply (minuteOf_lt (ended_at d))|].
  split; intros m.
  - rewrite Hdep, list_elem_of_filter. unfold startsAt. rewrite Hms.
    split; [by intros [[= ->] _] | by intros ->].
  - rewrite Harr, list_elem_of_filter. unfold arrivesAt. rewrite Hme.
    split; [by intros [[_ [= ->]] _] | by intros ->].
Qed.

(** When no row has a start that parses and an end that does not, both
    arrays hold exactly the valid rows. *)
Lemma sizes_agree rows h :
  Forall Trip_wf rows ->
  (forall d, d ∈ rows -> JS.isValid (started_at d) = true ->
             JS.isValid (ended_at d) = true) ->
  let w := exec (loadTrips rows) (initialWorld h) in
  indexSize (departuresByMinute w) = validTripCount rows
  /\ indexSize (arrivalsByMinute w) = validTripCount rows.
Proof.
  intros Hwf Hpair w.
  destruct (build_effect rows h Hwf) as (_ & _ & _ & _ & Hsd & Hsa).
  fold w in Hsd, Hsa. split; [|done]. rewrite Hsd.
  unfold validTripCount. clear -Hpair.
  induction rows as [|d rows IH]; [done|].
  assert (length (filter startParses rows)
          = length (filter (fun d => validTrip d = true) rows)) as IH'
    by (apply IH; intros d' Hd'; apply Hpair, elem_of_cons; by right).
  specialize (Hpair d (proj2 (elem_of_cons _ _ _) (or_introl eq_refl))).
  rewrite !filter_cons.
  destruct (decide (startParses d)) as [H1|H1];
    destruct (decide (validTrip d = true)) as [H2|H2];
    simpl; rewrite ?IH'; try done; exfalso.
  - apply H2. unfold validTrip. unfold startParses in H1.
    by rewrite H1, Hpair.
  - apply H1. unfold startParses.
    by apply andb_true_iff in H2 as [? _].
Qed.

End IndexClaims.

(** C2, where the code departs from it: a row whose start parses (08:00) and
    whose end does not is loaded without any exception reaching the caller,
    but it is left in departure bucket 480 while no arrival bucket has it;
    the [push] on [departuresByMinute] has happened before the [push] on
    [arrivalsByMinute] throws. *)
Lemma row_bad_end_stays_in_departures :
  let w := exec (loadTrips [Sample.tripBadEnd]) (initialWorld ∅) in
  validTrip Sample.tripBadEnd = false
  /\ result (loadTrips [Sample.tripBadEnd]) (initialWorld ∅)
     = Normal [Sample.tripBadEnd]
  /\ populate Sample.tripBadEnd (initialWorld ∅)
     = (Throw TypeError,
        set_departuresByMinute (pushAt 480 Sample.tripBadEnd)
          (initialWorld ∅))
  /\ bucket (departuresByMinute w) 480 = [Sample.tripBadEnd]
  /\ JS.flat (arrivalsByMinute w) = [].
Proof. vm_compute. repeat split. Qed.

(** C3, where the code departs from it: after loading one good row and one
    row whose end alone does not parse, the departure buckets hold two
    trips, the arrival buckets one, and one trip has valid minutes. *)
Lemma sizes_differ_on_bad_end :
  let rows := [Sample.tripAB; Sample.tripBadEnd] in
  let w := exec (loadTrips rows) (initialWorld ∅) in
  indexSize (departuresByMinute w) = 2%nat
  /\ indexSize (arrivalsByMinute w) = 1%nat
  /\ validTripCount rows = 1%nat.
Proof. vm_compute. repeat split. Qed.

(** ** The aggregator: checked statements *)

Section AggregateClaims.
Implicit Types (rows trips depTrips arrTrips : list Trip) (s : Station).
Implicit Types (h : gmap positive Station) (stations : list positive).
Implicit Types (w : World).

Lemma countBy_none (key : Trip -> string) (id : string) trips :
  (forall t, t ∈ trips -> key t <> id) -> countBy key id trips = 0.
Proof.
  intros Hnone. unfold countBy.
  induction trips as [|t trips IH]; [done|].
  rewrite filter_cons_False by (apply Hnone, elem_of_cons; by left).
  apply IH. intros t' Ht'. apply Hnone, elem_of_cons. by right.
Qed.

Lemma exec_aggregate stations depTrips arrTrips w :
  exec (aggregate stations depTrips arrTrips) w
  = set_heap (aggregateHeap stations depTrips arrTrips) w.
Proof. unfold exec. by rewrite aggregate_total. Qed.

Lemma exec_computeStationTraffic stations (timeFilter : Z) w :
  exec (computeStationTraffic stations timeFilter) w
  = set_heap
      (aggregateHeap stations
         (filterByMinute (departuresByMinute w) timeFilter)
         (filterByMinute (arrivalsByMinute w) timeFilter)) w.
Proof. unfold exec. by rewrite computeStationTraffic_total. Qed.

Lemma aggregateHeap_idemp stations depTrips arrTrips h :
  aggregateHeap stations depTrips arrTrips
    (aggregateHeap stations depTrips arrTrips h)
  = aggregateHeap stations depTrips arrTrips h.
Proof.
  apply map_eq. intros l. rewrite !aggregateHeap_lookup.
  destruct (decide (l ∈ stations)); [|done].
  by destruct (h !! l).
Qed.

(** C4: [aggregate] returns the roster as it is ordered, and leaves in
    every roster station the number of departure trips that start at its
    identifier, the number of arrival trips that end at it, and their sum;
    a station that no trip refers to gets the three properties with value
    0 (present, not absent), and nothing is thrown. *)
Theorem aggregate_writes_counts stations depTrips arrTrips w
    (l : positive) s :
  l ∈ stations -> heap w !! l = Some s ->
  let w' := exec (aggregate stations depTrips arrTrips) w in
  let d := countBy start_station_id (short_name s) depTrips in
  let a := countBy end_station_id (short_name s) arrTrips in
  result (aggregate stations depTrips arrTrips) w = Normal stations
  /\ JS.nullish
       (D3.rollup depTrips (fun v => JS.Int (Z.of_nat (length v)))
          start_station_id !! short_name s) (JS.Int 0) = JS.Int d
  /\ JS.nullish
       (D3.rollup arrTrips (fun v => JS.Int (Z.of_nat (length v)))
          end_station_id !! short_name s) (JS.Int 0) = JS.Int a
  /\ heap w' !! l
     = Some (mkStation (short_name s) (lat s) (lon s)
               (Some (JS.Int d)) (Some (JS.Int a)) (Some (JS.Int (d + a))))
  /\ ((forall t, t ∈ depTrips -> start_station_id t <> short_name s) ->
      (forall t, t ∈ arrTrips -> end_station_id t <> short_name s) ->
      heap w' !! l
      = Some (mkStation (short_name s) (lat s) (lon s)
                (Some (JS.Int 0)) (Some (JS.Int 0)) (Some (JS.Int 0)))).
Proof.
  intros Hl Hs w' d a.
  assert (heap w' !! l = Some (withTraffic depTrips arrTrips s)) as Hw'.
  { unfold w'. rewrite exec_aggregate. cbn [heap set_heap].
    rewrite aggregateHeap_lookup, decide_True by done. by rewrite Hs. }
  split; [unfold result; by rewrite aggregate_total|].
  split; [apply rollup_count|]. split; [apply rollup_count|].
  split; [done|].
  intros Hd Ha. rewrite Hw'. unfold withTraffic.
  by rewrite !countBy_none by done.
Qed.

(** C8: a second [computeStationTraffic] with the same roster and minute
    returns the same roster and leaves the world exactly as the first one
    left it, so every station has the same three counts both times; the
    query leaves both bucket arrays as they were, and [filterByMinute]
    gives on them the same list, in the same order, before and after. *)
Theorem computeStationTraffic_idempotent stations (timeFilter : Z) w :
  let query := computeStationTraffic stations timeFilter in
  let w1 := exec query w in
  let w2 := exec query w1 in
  result query w = Normal stations
  /\ result query w1 = result query w
  /\ w2 = w1
  /\ departuresByMinute w1 = departuresByMinute w
  /\ arrivalsByMinute w1 = arrivalsByMinute w
  /\ filterByMinute (departuresByMinute w1) timeFilter
     = filterByMinute (departuresByMinute w) timeFilter
  /\ filterByMinute (arrivalsByMinute w1) timeFilter
     = filterByMinute (arrivalsByMinute w) timeFilter.
Proof.
  intros query w1 w2. unfold w2, w1, query, result.
  rewrite !exec_computeStationTraffic, !computeStationTraffic_total.
  cbn [fst departuresByMinute arrivalsByMinute set_heap heap].
  repeat split; try done.
  unfold set_heap. cbn [departuresByMinute arrivalsByMinute heap].
  by rewrite aggregateHeap_idemp.
Qed.

(** C9: [aggregate] leaves both bucket arrays as they were; in the store
    it changes station objects of the roster only, and of those it keeps
    the identifier and the two coordinates: the three derived properties
    are all that it writes. *)
Theorem aggregate_frame stations depTrips arrTrips w (l : positive) :
  let w' := exec (aggregate stations depTrips arrTrips) w in
  departuresByMinute w' = departuresByMinute w
  /\ arrivalsByMinute w' = arrivalsByMinute w
  /\ result (aggregate stations depTrips arrTrips) w = Normal stations
  /\ short_name <$> heap w' !! l = short_name <$> heap w !! l
  /\ lat <$> heap w' !! l = lat <$> heap w !! l
  /\ lon <$> heap w' !! l = lon <$> heap w !! l
  /\ (if decide (l ∈ stations) then
        heap w' !! l = withTraffic depTrips arrTrips <$> heap w !! l
      else heap w' !! l = heap w !! l).
Proof.
  intros w'. unfold w', result.
  rewrite exec_aggregate, aggregate_total.
  cbn [fst departuresByMinute arrivalsByMinute set_heap heap].
  rewrite aggregateHeap_lookup.
  repeat split; try done;
    destruct (decide (l ∈ stations)); try done; by destruct (heap w !! l).
Qed.

End AggregateClaims.

Section UnfilteredClaims.
Implicit Types (rows : list Trip) (h : gmap positive Station).
Implicit Types (stations : list positive).

(** Every trip of a built index comes from a bucket, hence from a row. *)
Lemma elem_of_concat_bucket {T} (idx : list (list T)) (t : T) :
  t ∈ concat idx -> exists m, t ∈ bucket idx m.
Proof.
  intros (b & Ht & (m & Hm)%list_elem_of_lookup_1)%elem_of_concat.
  exists m. unfold bucket. by rewrite Hm.
Qed.

(** The total of the roster after [aggregate], for any store: a reference
    of the roster that the store does not hold adds nothing on either
    side. *)
Lemma sumTotalTraffic_aggregate_roster stations
    (depTrips arrTrips : list Trip) (w : World) (sub : list positive) :
  (forall l, l ∈ sub -> l ∈ stations) ->
  sumTotalTraffic
    (set_heap (aggregateHeap stations depTrips arrTrips) w) sub
  = sumOver (fun id => countBy start_station_id id depTrips
                       + countBy end_station_id id arrTrips)
      (rosterIds (heap w) sub).
Proof.
  induction sub as [|l sub IH]; intros Hsub; [done|].
  assert (l ∈ stations) as Hl by (apply Hsub, elem_of_cons; by left).
  unfold sumTotalTraffic, rosterIds in *. cbn [foldr omap list_omap].
  rewrite IH by (intros l' Hl'; apply Hsub, elem_of_cons; by right).
  cbn [heap set_heap]. rewrite aggregateHeap_lookup.
  rewrite decide_True by done.
  by destruct (heap w !! l) as [s|].
Qed.

(** C6, as the code has it: after an unfiltered query every station of
    every roster has [totalTraffic = departures + arrivals], whatever the
    trips; and the sum of [totalTraffic] over the roster is twice the
    number of valid trips when the roster's identifiers are pairwise
    distinct and every valid trip starts and ends at a roster station (a
    trip end at a station outside the roster is joined to no row and is
    missing from the sum), the sum being stated for trip files in which no
    row has a start that parses and an end that does not. *)
Theorem unfiltered_total_traffic rows h stations :
  let w := exec (loadTrips rows) (initialWorld h) in
  let w' := exec (computeStationTraffic stations (-1)) w in
  (forall l s', l ∈ stations -> heap w' !! l = Some s' ->
     exists d a, departures s' = Some (JS.Int d)
                 /\ arrivals s' = Some (JS.Int a)
                 /\ totalTraffic s' = Some (JS.Int (d + a))
                 /\ JS.add_prop (departures s') (arrivals s')
                    = JS.Int (d + a))
  /\ (Forall Trip_wf rows ->
      (forall d, d ∈ rows -> JS.isValid (started_at d) = true ->
                 JS.isValid (ended_at d) = true) ->
      NoDup (rosterIds h stations) ->
      (forall d, d ∈ rows -> validTrip d = true ->
                 start_station_id d ∈ rosterIds h stations
                 /\ end_station_id d ∈ rosterIds h stations) ->
      sumTotalTraffic w' stations = 2 * Z.of_nat (validTripCount rows)).
Proof.
  intros w w'. unfold w'. rewrite exec_computeStationTraffic.
  change (filterByMinute (departuresByMinute w) (-1))
    with (concat (departuresByMinute w)).
  change (filterByMinute (arrivalsByMinute w) (-1))
    with (concat (arrivalsByMinute w)).
  split.
  - intros l s' Hl. cbn [heap set_heap].
    rewrite aggregateHeap_lookup, decide_True by done.
    destruct (heap w !! l) as [s|]; [|done].
    intros [= <-]. by eexists _, _.
  - intros Hwf Hpair Hnd Hknown.
    destruct (build_effect rows h Hwf) as (Hidx & Hheap & Hdep & Harr & _).
    destruct (sizes_agree rows h Hwf Hpair) as [Hsd Hsa].
    fold w in Hidx, Hheap, Hdep, Harr, Hsd, Hsa.
    rewrite sumTotalTraffic_aggregate_roster by done.
    rewrite Hheap, sumOver_add.
    rewrite !sumOver_countBy; try done.
    + rewrite <- !indexSize_concat, Hsd, Hsa. lia.
    + intros t [m Ht]%elem_of_concat_bucket.
      rewrite Harr in Ht. apply list_elem_of_filter in Ht as [[Hv _] Ht].
      by apply Hknown.
    + intros t [m Ht]%elem_of_concat_bucket.
      rewrite Hdep in Ht. apply list_elem_of_filter in Ht as [Hs Ht].
      apply Hknown; [done|]. unfold validTrip.
      assert (JS.isValid (started_at t) = true) as Hst.
      { apply minuteOf_isValid. by exists m. }
      by rewrite Hst, Hpair.
Qed.

End UnfilteredClaims.

(** C6 as worded fails on the code: with the one trip from A to B loaded
    and a roster made of station A alone, the unfiltered totals add up to 1
    while twice the number of valid trips is 2. *)
Lemma unfiltered_sum_misses_unknown_station :
  let w := exec (loadTrips [Sample.tripAB]) (initialWorld Sample.store) in
  let w' := exec (computeStationTraffic [1%positive] (-1)) w in
  Forall Trip_wf [Sample.tripAB]
  /\ validTripCount [Sample.tripAB] = 1%nat
  /\ rosterIds Sample.store [1%positive] = ["A"]
  /\ sumTotalTraffic w' [1%positive] = 1
  /\ sumTotalTraffic w' [1%positive]
     <> 2 * Z.of_nat (validTripCount [Sample.tripAB]).
Proof.
  cbv zeta. split.
  { repeat constructor; simpl; lia. }
  split; [reflexivity|]. split; [reflexivity|].
  split; [vm_compute; reflexivity|]. vm_compute. discriminate.
Defined.

(** The two sample trips between A and B on the roster A, B, C. *)
Lemma unfiltered_total_traffic_witness :
  let rows := [Sample.tripAB; Sample.tripBA] in
  let stations := [1%positive; 2%positive; 3%positive] in
  let w' := exec (computeStationTraffic stations (-1)) Sample.loaded in
  sumTotalTraffic w' stations = 2 * Z.of_nat (validTripCount rows)
  /\ exists d a,
       (heap w' !! 1%positive) ≫= totalTraffic = Some (JS.Int (d + a)).
Proof.
  cbv zeta. split.
  - apply (proj2 (unfiltered_total_traffic [Sample.tripAB; Sample.tripBA]
                    Sample.store [1%positive; 2%positive; 3%positive])).
    + repeat constructor; simpl; lia.
    + intros d Hd _.
      repeat (apply elem_of_cons in Hd as [->|Hd]; [reflexivity|]).
      by apply elem_of_nil in Hd.
    + change (NoDup ["A"; "B"; "C"]). apply NoDup_ListNoDup.
      repeat (constructor; [simpl; intuition discriminate|]). constructor.
    + intros d Hd _. change (rosterIds Sample.store _) with ["A"; "B"; "C"].
      repeat (apply elem_of_cons in Hd as [->|Hd];
              [split; simpl;
               repeat (apply elem_of_cons; (by left) || right)|]);
        by apply elem_of_nil in Hd.
  - destruct (proj1 (unfiltered_total_traffic [Sample.tripAB; Sample.tripBA]
                       Sample.store [1%positive; 2%positive; 3%positive])
                1%positive
                (withTraffic [Sample.tripAB; Sample.tripBA]
                   [Sample.tripAB; Sample.tripBA] Sample.stationA))
      as (d & a & _ & _ & Ht & _).
    + apply elem_of_cons. by left.
    + vm_compute. reflexivity.
    + exists d, a. revert Ht. vm_compute. intros [= <-].
      reflexivity.
Defined.

Lemma aggregate_writes_counts_witness :
  let stations := [1%positive; 2%positive; 3%positive] in
  let w' := exec (aggregate stations [Sample.tripAB] [Sample.tripBA])
              (initialWorld Sample.store) in
  heap w' !! 1%positive
  = Some (mkStation "A" "42.36" "-71.09"
            (Some (JS.Int 1)) (Some (JS.Int 1)) (Some (JS.Int 2)))
  /\ heap w' !! 3%positive
     = Some (mkStation "C" "42.34" "-71.11"
               (Some (JS.Int 0)) (Some (JS.Int 0)) (Some (JS.Int 0))).
Proof.
  cbv zeta. split.
  - pose proof (aggregate_writes_counts [1%positive; 2%positive; 3%positive]
                  [Sample.tripAB] [Sample.tripBA] (initialWorld Sample.store)
                  1%positive Sample.stationA) as H.
    cbv zeta in H. destruct H as (_ & _ & _ & H & _); [|reflexivity|exact H].
    apply elem_of_cons. by left.
  - pose proof (aggregate_writes_counts [1%positive; 2%positive; 3%positive]
                  [Sample.tripAB] [Sample.tripBA] (initialWorld Sample.store)
                  3%positive Sample.stationC) as H.
    cbv zeta in H. destruct H as (_ & _ & _ & H & _); [|reflexivity|exact H].
    do 2 (apply elem_of_cons; right). apply elem_of_cons. by left.
Defined.

(** ** Minutes of day *)

Section Minutes.
Implicit Types (date : JS.Date) (d : Trip) (w : World).

(** X1: on an invalid date [minutesSinceMidnight] is [NaN]; on a valid one
    it is an integer between 0 and 1439, sixty times the hour plus the
    minute. *)
Theorem minutesSinceMidnight_range date :
  JS.Date_wf date ->
  (JS.isValid date = false /\ minutesSinceMidnight date = JS.NaN)
  \/ (exists n, JS.isValid date = true
                /\ minutesSinceMidnight date = JS.Int n
                /\ 0 <= n <= 1439
                /\ JS.mul (JS.getHours date) (JS.Int 60)
                   = JS.Int (60 * (n / 60))
                /\ JS.getMinutes date = JS.Int (n `mod` 60)).
Proof.
  destruct date as [|h m]; [by left|]. intros [Hh Hm]. right.
  exists (h * 60 + m). split; [done|]. split; [done|]. split; [lia|].
  assert ((h * 60 + m) / 60 = h) as Hq.
  { rewrite Z.add_comm, Z.div_add by lia. rewrite Z.div_small by lia. lia. }
  assert ((h * 60 + m) `mod` 60 = m) as Hr.
  { rewrite Z.add_comm, Z.mod_add by lia. apply Z.mod_small. lia. }
  simpl. rewrite Hq, Hr. split; [f_equal; lia|done].
Qed.

(** X2: two valid dates have the same minute of day only when they have the
    same hour and the same minute: a bucket holds one clock time. *)
Theorem minutesSinceMidnight_inj (h1 m1 h2 m2 : Z) :
  JS.Date_wf (JS.DateTime h1 m1) -> JS.Date_wf (JS.DateTime h2 m2) ->
  minutesSinceMidnight (JS.DateTime h1 m1)
  = minutesSinceMidnight (JS.DateTime h2 m2) ->
  h1 = h2 /\ m1 = m2.
Proof. simpl. intros [? ?] [? ?] [= Heq]. lia. Qed.

(** X3: in a world with its 1440 slots, the body of the [try] block ends
    normally when both timestamps of the row parse and throws a
    [TypeError] otherwise. *)
Theorem populate_throws_iff_invalid d w :
  indexed w -> Trip_wf d ->
  result (populate d) w
  = if validTrip d then Normal () else Throw TypeError.
Proof.
  intros [Hdep Harr] [Hs He].
  unfold result, populate, mbind, M_bind, departures_push, arrivals_push.
  rewrite index_minuteOf by done.
  destruct (started_at d) as [|h m] eqn:Es; unfold validTrip; rewrite Es;
    [done|].
  cbn [minuteOf JS.isValid andb].
  rewrite index_minuteOf;
    [|by (simpl; rewrite ?length_alter)|done].
  by destruct (ended_at d).
Qed.

End Minutes.

Lemma minutesSinceMidnight_range_witness :
  exists n, minutesSinceMidnight (JS.DateTime 23 59) = JS.Int n
            /\ 0 <= n <= 1439.
Proof.
  destruct (minutesSinceMidnight_range (JS.DateTime 23 59)) as [[H _]|H].
  - simpl. lia.
  - discriminate H.
  - destruct H as (n & _ & Hn & Hr & _). exists n. split; [exact Hn|exact Hr].
Defined.

Lemma minutesSinceMidnight_inj_witness : 10 = 10 /\ 40 = 40.
Proof.
  apply (minutesSinceMidnight_inj 10 40 10 40); simpl; solve [lia|reflexivity].
Defined.

Lemma populate_throws_iff_invalid_witness :
  result (populate Sample.tripBadEnd) (initialWorld ∅) = Throw TypeError.
Proof.
  apply (populate_throws_iff_invalid Sample.tripBadEnd (initialWorld ∅)).
  - split; reflexivity.
  - split; simpl; [lia|exact I].
Defined.

(** ** Loading: further statements *)

Section Loading.
Implicit Types (rows : list Trip) (d : Trip) (w : World).
Implicit Types (h : gmap positive Station).

Lemma rowStep_shape d w :
  length (departuresByMinute (rowStep d w)) = length (departuresByMinute w)
  /\ length (arrivalsByMinute (rowStep d w)) = length (arrivalsByMinute w)
  /\ heap (rowStep d w) = heap w.
Proof.
  unfold rowStep.
  destruct (JS.index (departuresByMinute w) _) as [n|]; [|done].
  cbv zeta.
  destruct (JS.index (arrivalsByMinute _) _) as [k|]; simpl;
    unfold pushAt; by rewrite ?length_alter.
Qed.

Lemma rowStep_bad_start d w :
  JS.isValid (started_at d) = false -> rowStep d w = w.
Proof. unfold rowStep. by destruct (started_at d). Qed.

Lemma filter_ext_in {A} (P Q : A -> Prop) `{!forall x, Decision (P x)}
    `{!forall x, Decision (Q x)} (l : list A) :
  (forall x, x ∈ l -> P x <-> Q x) -> filter P l = filter Q l.
Proof.
  induction l as [|x l IH]; intros HPQ; [done|].
  rewrite !filter_cons.
  rewrite IH by (intros y Hy; apply HPQ, elem_of_cons; by right).
  pose proof (HPQ x (proj2 (elem_of_cons _ _ _) (or_introl eq_refl))) as Hx.
  destruct (decide (P x)), (decide (Q x)); try done; exfalso; tauto.
Qed.

Lemma filter_disjoint_union {A} (P Q R : A -> Prop)
    `{!forall x, Decision (P x)} `{!forall x, Decision (Q x)}
    `{!forall x, Decision (R x)} (l : list A) :
  (forall x, R x <-> P x \/ Q x) -> (forall x, P x -> Q x -> False) ->
  filter R l ≡ₚ filter P l ++ filter Q l.
Proof.
  intros HR Hdisj. induction l as [|x l IH]; [done|].
  rewrite !filter_cons.
  destruct (decide (P x)) as [HP|HP], (decide (Q x)) as [HQ|HQ],
    (decide (R x)) as [Hr|Hr];
    try (exfalso; by eauto); try (exfalso; apply Hr, HR; tauto);
    try (exfalso; apply HR in Hr; tauto).
  - simpl. by rewrite IH.
  - rewrite IH. apply Permutation_middle.
  - done.
Qed.

(** The rows that a list of minutes selects through a partial key. *)
Lemma concat_filter_by_minute {A} (key : A -> option nat) (l : list A)
    (ms : list nat) :
  NoDup ms ->
  concat ((fun m => filter (fun x => key x = Some m) l) <$> ms)
  ≡ₚ filter (fun x => match key x with
                      | Some m => bool_decide (m ∈ ms)
                      | None => false
                      end = true) l.
Proof.
  induction ms as [|m ms IH]; intros Hnd.
  - change (concat _) with (@nil A).
    induction l as [|x l IHl]; [done|].
    rewrite filter_cons_False; [done|].
    destruct (key x) as [k|]; [|done].
    intros Hk%bool_decide_eq_true. by apply not_elem_of_nil in Hk.
  - apply NoDup_cons in Hnd as [Hm Hnd]. simpl. rewrite IH by done.
    symmetry. apply filter_disjoint_union.
    + intros x. destruct (key x) as [k|]; [|split; [done|by intros [?|?]]].
      rewrite !bool_decide_eq_true, elem_of_cons.
      split; (intros [?|?]; [left; congruence | by right]).
    + intros x Hx. rewrite Hx, bool_decide_eq_true. done.
Qed.

Lemma length_filter_startParses rows :
  length (filter startParses rows)
  = (validTripCount rows + length (filter endFails rows))%nat.
Proof.
  unfold validTripCount. induction rows as [|d rows IH]; [done|].
  rewrite !filter_cons.
  destruct (decide (startParses d)) as [H1|H1],
    (decide (validTrip d = true)) as [H2|H2],
    (decide (endFails d)) as [H3|H3];
    unfold startParses, endFails, validTrip in *; simpl; rewrite ?IH;
    try lia; exfalso;
    destruct (JS.isValid (started_at d)), (JS.isValid (ended_at d));
    simpl in *; intuition congruence.
Qed.

(** X4: whatever the rows and whatever the world, no exception leaves the
    row callback: [loadTrips] ends normally and returns every row, those it
    did not index included. *)
Theorem loadTrips_never_throws rows w :
  result (loadTrips rows) w = Normal rows
  /\ Forall (fun d => result (row d) w = Normal d) rows.
Proof.
  split; [apply loadTrips_returns|].
  apply Forall_forall. intros d _. unfold result. by rewrite row_total.
Qed.

(** X5: loading trips changes neither the number of slots of the two bucket
    arrays nor the station store, whatever the rows. *)
Theorem loadTrips_keeps_slots rows w :
  length (departuresByMinute (exec (loadTrips rows) w))
  = length (departuresByMinute w)
  /\ length (arrivalsByMinute (exec (loadTrips rows) w))
     = length (arrivalsByMinute w)
  /\ heap (exec (loadTrips rows) w) = heap w.
Proof.
  rewrite exec_loadTrips. revert w.
  induction rows as [|d rows IH]; intros w; [done|].
  simpl. destruct (IH (rowStep d w)) as (H1 & H2 & H3).
  destruct (rowStep_shape d w) as (G1 & G2 & G3).
  by rewrite H1, H2, H3, G1, G2, G3.
Qed.

(** X6: rows whose start timestamp does not parse leave the world exactly
    as it was, also when their end timestamp parses. *)
Theorem loadTrips_bad_start_no_effect rows w :
  Forall (fun d => JS.isValid (started_at d) = false) rows ->
  exec (loadTrips rows) w = w.
Proof.
  rewrite exec_loadTrips. revert w.
  induction rows as [|d rows IH]; intros w Hbad; [done|].
  apply Forall_cons in Hbad as [Hd Hrows].
  simpl. rewrite rowStep_bad_start by done. by apply IH.
Qed.

(** X7: loading a file in two parts, one after the other, leaves the same
    world as loading it at once. *)
Theorem loadTrips_app rows1 rows2 w :
  exec (loadTrips (rows1 ++ rows2)) w
  = exec (loadTrips rows2) (exec (loadTrips rows1) w)
  /\ result (loadTrips (rows1 ++ rows2)) w = Normal (rows1 ++ rows2).
Proof.
  split; [|apply loadTrips_returns].
  rewrite !exec_loadTrips. apply foldl_app.
Qed.

(** X8: loading only appends: every bucket keeps what it held, followed by
    the new rows of its minute in file order (for arrivals, the new rows
    whose two timestamps parse). *)
Theorem loadTrips_appends_in_file_order rows w (m : nat) :
  indexed w -> Forall Trip_wf rows ->
  bucket (departuresByMinute (exec (loadTrips rows) w)) m
  = bucket (departuresByMinute w) m
    ++ filter (fun d => minuteOf (started_at d) = Some m) rows
  /\ bucket (arrivalsByMinute (exec (loadTrips rows) w)) m
     = bucket (arrivalsByMinute w) m
       ++ filter (fun d => validTrip d = true
                           /\ minuteOf (ended_at d) = Some m) rows.
Proof.
  intros Hw Hwf.
  destruct (loadTrips_effect rows w Hw Hwf) as (_ & _ & Hd & Ha & _).
  by rewrite Hd, Ha.
Qed.

(** X9: in the index built from a file, the arrival buckets hold as many
    trips as the file has rows with two parseable timestamps, and the
    departure buckets hold that many plus one for every row whose start
    parses and whose end does not. *)
Theorem index_size_gap rows h :
  Forall Trip_wf rows ->
  let w := exec (loadTrips rows) (initialWorld h) in
  indexSize (arrivalsByMinute w) = validTripCount rows
  /\ indexSize (departuresByMinute w)
     = (validTripCount rows + length (filter endFails rows))%nat.
Proof.
  intros Hwf w.
  destruct (build_effect rows h Hwf) as (_ & _ & _ & _ & Hsd & Hsa).
  fold w in Hsd, Hsa. split; [done|].
  rewrite Hsd. apply length_filter_startParses.
Qed.

End Loading.

(** ** The index against a scan of the file *)

Section Scan.
Implicit Types (rows : list Trip) (d : Trip) (w : World).
Implicit Types (h : gmap positive Station) (ms : list nat).

Lemma perm_of_eq {A} (l k : list A) : l = k -> l ≡ₚ k.
Proof. by intros ->. Qed.

Lemma built_departures_select rows h ms :
  Forall Trip_wf rows -> NoDup ms ->
  concat (bucket (departuresByMinute (exec (loadTrips rows) (initialWorld h)))
            <$> ms)
  ≡ₚ filter (fun d => match minuteOf (started_at d) with
                      | Some m => bool_decide (m ∈ ms)
                      | None => false
                      end = true) rows.
Proof.
  intros Hwf Hnd.
  destruct (build_effect rows h Hwf) as (_ & _ & Hd & _).
  rewrite <- (concat_filter_by_minute (fun d => minuteOf (started_at d)))
    by done.
  apply perm_of_eq. f_equal. apply list_fmap_ext. intros _ m _. apply Hd.
Qed.

Lemma built_arrivals_select rows h ms :
  Forall Trip_wf rows -> NoDup ms ->
  concat (bucket (arrivalsByMinute (exec (loadTrips rows) (initialWorld h)))
            <$> ms)
  ≡ₚ filter (fun d => validTrip d = true
                      /\ match minuteOf (ended_at d) with
                         | Some m => bool_decide (m ∈ ms)
                         | None => false
                         end = true) rows.
Proof.
  intros Hwf Hnd.
  destruct (build_effect rows h Hwf) as (_ & _ & _ & Ha & _).
  transitivity
    (filter (fun d => match (if validTrip d then minuteOf (ended_at d)
                             else None) with
                      | Some m => bool_decide (m ∈ ms)
                      | None => false
                      end = true) rows).
  - rewrite <- (concat_filter_by_minute
                  (fun d => if validTrip d then minuteOf (ended_at d)
                            else None)) by done.
    apply perm_of_eq. f_equal. apply list_fmap_ext. intros _ m _.
    rewrite Ha. apply list_filter_iff. intros d. unfold arrivesAt.
    destruct (validTrip d); [|split; [by intros [? _]|done]].
    split; [by intros [_ ?]|done].
  - apply perm_of_eq. apply list_filter_iff. intros d.
    destruct (validTrip d); [|split; [done|by intros [? _]]].
    split; [done|by intros [_ ?]].
Qed.

Lemma countBy_Permutation (key : Trip -> string) (id : string)
    (l1 l2 : list Trip) :
  l1 ≡ₚ l2 -> countBy key id l1 = countBy key id l2.
Proof. intros Hp. unfold countBy. by rewrite Hp. Qed.

Lemma withTraffic_Permutation (dep1 dep2 arr1 arr2 : list Trip)
    (s : Station) :
  dep1 ≡ₚ dep2 -> arr1 ≡ₚ arr2 ->
  withTraffic dep1 arr1 s = withTraffic dep2 arr2 s.
Proof.
  intros Hd Ha. unfold withTraffic.
  by rewrite (countBy_Permutation _ _ _ _ Hd), (countBy_Permutation _ _ _ _ Ha).
Qed.

Lemma built_flat_perm rows h :
  Forall Trip_wf rows ->
  let w := exec (loadTrips rows) (initialWorld h) in
  JS.flat (departuresByMinute w) ≡ₚ filter startParses rows
  /\ JS.flat (arrivalsByMinute w)
     ≡ₚ filter (fun d => validTrip d = true) rows.
Proof.
  intros Hwf w.
  destruct (build_effect rows h Hwf) as ([Hld Hla] & _).
  fold w in Hld, Hla. unfold JS.flat.
  rewrite (buckets_all (departuresByMinute w)).
  rewrite (buckets_all (arrivalsByMinute w)).
  unfold buckets. rewrite !Nat.sub_0_r, Hld, Hla. unfold w.
  rewrite built_departures_select, built_arrivals_select
    by (done || apply NoDup_seq).
  split; apply perm_of_eq, filter_ext_in; intros d Hd;
    destruct (proj1 (Forall_forall _ _) Hwf d Hd) as [Hs He].
  - unfold startParses. destruct (started_at d) as [|hh mm]; [done|].
    cbn [minuteOf JS.isValid]. rewrite bool_decide_eq_true, elem_of_seq.
    simpl in Hs. split; [done|]. intros _. lia.
  - destruct (ended_at d) as [|hh mm] eqn:Ee.
    + unfold validTrip. rewrite Ee. cbn [JS.isValid minuteOf].
      rewrite andb_false_r. split; [by intros [? _]|done].
    + cbn [minuteOf]. rewrite bool_decide_eq_true, elem_of_seq.
      simpl in He. split; [by intros [? _]|]. intros Hv. split; [done|lia].
Qed.

(** X10: the departure buckets of a built index hold, up to order, exactly
    the rows whose start parses, and the arrival buckets exactly the rows
    whose two timestamps parse: no row is indexed twice and nothing is
    indexed that is not a row. *)
Theorem index_holds_the_parseable_rows rows h :
  Forall Trip_wf rows ->
  let w := exec (loadTrips rows) (initialWorld h) in
  JS.flat (departuresByMinute w) ≡ₚ filter startParses rows
  /\ JS.flat (arrivalsByMinute w)
     ≡ₚ filter (fun d => validTrip d = true) rows.
Proof. exact (built_flat_perm rows h). Qed.

Lemma built_window_perm rows h (c : Z) :
  Forall Trip_wf rows -> 0 <= c <= 1439 ->
  let w := exec (loadTrips rows) (initialWorld h) in
  filterByMinute (departuresByMinute w) c ≡ₚ scanDepartures rows c
  /\ filterByMinute (arrivalsByMinute w) c ≡ₚ scanArrivals rows c.
Proof.
  intros Hwf Hc w.
  destruct (build_effect rows h Hwf) as ([Hld Hla] & _).
  fold w in Hld, Hla.
  rewrite !filterByMinute_window by done. unfold w.
  rewrite built_departures_select, built_arrivals_select
    by (done || by apply windowMinutes_NoDup).
  done.
Qed.

(** X11: for every minute of day, what [filterByMinute] takes from a built
    index is, up to order, what a scan of the whole file would select: the
    rows whose start minute lies in the window for departures, and the rows
    with two parseable timestamps whose end minute lies in the window for
    arrivals. *)
Theorem filterByMinute_agrees_with_scan rows h (c : Z) :
  Forall Trip_wf rows -> 0 <= c <= 1439 ->
  let w := exec (loadTrips rows) (initialWorld h) in
  filterByMinute (departuresByMinute w) c ≡ₚ scanDepartures rows c
  /\ filterByMinute (arrivalsByMinute w) c ≡ₚ scanArrivals rows c.
Proof. exact (built_window_perm rows h c). Qed.

End Scan.

Lemma filterByMinute_agrees_with_scan_witness :
  filterByMinute (departuresByMinute Sample.loaded) 700
  ≡ₚ scanDepartures [Sample.tripAB; Sample.tripBA] 700.
Proof.
  apply (filterByMinute_agrees_with_scan [Sample.tripAB; Sample.tripBA]
           Sample.store 700).
  - repeat constructor; simpl; lia.
  - lia.
Defined.

Lemma index_holds_the_parseable_rows_witness :
  JS.flat (arrivalsByMinute Sample.loaded)
  ≡ₚ filter (fun d => validTrip d = true) [Sample.tripAB; Sample.tripBA].
Proof.
  apply (index_holds_the_parseable_rows [Sample.tripAB; Sample.tripBA]
           Sample.store).
  repeat constructor; simpl; lia.
Defined.

(** ** The window query: further statements *)

Section WindowFurther.
Context {T : Type}.
Implicit Types (idx : list (list T)).

Lemma elem_of_slice {A} (a : list A) (start : Z) (end_ : option Z) (x : A) :
  x ∈ JS.slice a start end_ -> x ∈ a.
Proof.
  unfold JS.slice. intros (i & Hi & _)%elem_of_take.
  rewrite lookup_drop in Hi. by apply list_elem_of_lookup_2 in Hi.
Qed.

Lemma sublist_concat (l1 l2 : list (list T)) :
  l1 `sublist_of` l2 -> concat l1 `sublist_of` concat l2.
Proof.
  induction 1 as [|b l1 l2 _ IH|b l1 l2 _ IH]; simpl.
  - constructor.
  - by apply sublist_app.
  - by apply sublist_inserts_l.
Qed.

Lemma filterByMinute_subset_flat idx (minute : Z) (t : T) :
  t ∈ filterByMinute idx minute -> t ∈ JS.flat idx.
Proof.
  unfold filterByMinute, JS.flat.
  destruct (minute =? -1); [done|]. cbv zeta.
  destruct (_ >? _); rewrite !elem_of_concat.
  - intros (b & Ht & Hb). exists b. split; [done|].
    apply elem_of_app in Hb as [Hb|Hb]; by apply elem_of_slice in Hb.
  - intros (b & Ht & Hb). exists b. split; [done|].
    by apply elem_of_slice in Hb.
Qed.

(** X12: whatever the minute asked for, in the contract or not, and
    whatever the length of the array, [filterByMinute] returns only trips
    that are in the array it is given. *)
Theorem filterByMinute_only_indexed_trips idx (minute : Z) (t : T) :
  t ∈ filterByMinute idx minute -> t ∈ JS.flat idx.
Proof. exact (filterByMinute_subset_flat idx minute t). Qed.

(** X13: a minute past the end of the day is not rejected, it wraps: from
    -60 upwards, the sentinel -1 apart, and as long as the sums that lines
    28-29 form from [minute + 1440] stay safe integers (so that the
    additions are exact), the query at [minute + 1440] returns what the
    query at [minute] returns. *)
Theorem filterByMinute_wraps_by_day idx (minute : Z) :
  -60 <= minute -> minute <> -1 ->
  minute + 1440 - 60 + 1440 <= MAX_SAFE_INTEGER ->
  filterByMinute idx (minute + 1440) = filterByMinute idx minute.
Proof.
  intros Hlo Hne _. unfold filterByMinute.
  destruct (Z.eqb_spec (minute + 1440) (-1)); [lia|].
  destruct (Z.eqb_spec minute (-1)); [done|].
  unfold JS.rem. rewrite !Z.rem_mod_nonneg by lia.
  replace (minute + 1440 - 60 + 1440) with (minute - 60 + 1440 + 1 * 1440)
    by lia.
  replace (minute + 1440 + 60) with (minute + 60 + 1 * 1440) by lia.
  by rewrite !Z.mod_add by lia.
Qed.

(** X14: a minute between -1380 and -61, outside the contract, is not
    rejected either and gets a window that is much too wide: the buckets
    from [minute + 1380] to the end of the day followed by the buckets from
    0 to [minute + 1500], which between them cover the whole day (1560
    buckets, so some trips come twice). *)
Theorem filterByMinute_negative_minute idx (minute : Z) :
  length idx = 1440%nat -> -1380 <= minute < -60 ->
  filterByMinute idx minute
  = buckets idx (Z.to_nat (minute + 1380)) 1440
    ++ buckets idx 0 (Z.to_nat (minute + 1500))
  /\ (forall t, t ∈ JS.flat idx -> t ∈ filterByMinute idx minute).
Proof.
  intros Hlen Hm.
  assert (filterByMinute idx minute
          = buckets idx (Z.to_nat (minute + 1380)) 1440
            ++ buckets idx 0 (Z.to_nat (minute + 1500))) as Heq.
  { unfold filterByMinute.
    destruct (Z.eqb_spec minute (-1)); [lia|]. unfold JS.rem.
    assert (Z.rem (minute - 60 + 1440) 1440 = minute + 1380) as ->
      by (rewrite Z.rem_small by lia; lia).
    assert (Z.rem (minute + 60) 1440 = minute + 60) as ->.
    { replace (minute + 60) with (- (- (minute + 60))) by lia.
      rewrite Z.rem_opp_l by lia. rewrite Z.rem_small by lia. lia. }
    cbv zeta.
    destruct (Z.gtb_spec (minute + 1380) (minute + 60)); [|lia].
    rewrite slice_from by lia. unfold JS.slice, JS.flat.
    rewrite Hlen, (relative_in_range _ 0) by lia. unfold JS.relative.
    destruct (Z.ltb_spec (minute + 60) 0); [|lia].
    rewrite Z.max_l by lia. rewrite concat_app.
    rewrite (concat_take_drop idx _ 1440) by lia.
    change (Z.to_nat 0) with 0%nat.
    replace (Z.to_nat (Z.of_nat 1440 + (minute + 60) - 0))
      with (Z.to_nat (minute + 1500) - 0)%nat by lia.
    by rewrite (concat_take_drop idx 0) by lia. }
  split; [done|].
  intros t Ht. rewrite Heq. unfold JS.flat in Ht.
  rewrite buckets_all, Hlen in Ht.
  apply elem_of_buckets in Ht as (m & Hm' & Ht).
  apply elem_of_app.
  destruct (decide (m < Z.to_nat (minute + 1500))%nat).
  - right. apply elem_of_buckets. exists m. split; [lia|done].
  - left. apply elem_of_buckets. exists m. split; [lia|done].
Qed.

Lemma filterByMinute_submseteq_flat idx (c : Z) :
  length idx = 1440%nat -> 0 <= c <= 1439 ->
  filterByMinute idx c ⊆+ filterByMinute idx (-1).
Proof.
  intros Hlen Hc.
  destruct (window_bounds c Hc) as (Hmin & Hmax & _ & _).
  assert (0 <= (c - 60 + 1440) `mod` 1440 < 1440) as Hlo
    by (apply Z.mod_pos_bound; lia).
  assert (0 <= (c + 60) `mod` 1440 < 1440) as Hhi
    by (apply Z.mod_pos_bound; lia).
  change (filterByMinute idx (-1)) with (concat idx).
  unfold filterByMinute.
  destruct (Z.eqb_spec c (-1)); [lia|]. rewrite Hmin, Hmax. cbv zeta.
  unfold JS.flat.
  destruct (Z.gtb_spec ((c - 60 + 1440) `mod` 1440) ((c + 60) `mod` 1440))
    as [Hwrap|Hflat].
  - rewrite slice_from, slice_range by lia.
    change (Z.to_nat 0) with 0%nat. rewrite drop_0, Nat.sub_0_r.
    rewrite firstn_all2 by (rewrite length_drop; lia).
    rewrite concat_app.
    set (a := Z.to_nat ((c - 60 + 1440) `mod` 1440)).
    set (b := Z.to_nat ((c + 60) `mod` 1440)).
    rewrite (comm (++)).
    rewrite <- (take_drop b idx) at 3. rewrite concat_app.
    apply submseteq_skips_l, sublist_submseteq, sublist_concat.
    replace a with (b + (a - b))%nat by lia.
    rewrite <- drop_drop. apply sublist_drop.
  - rewrite slice_range by lia.
    apply sublist_submseteq, sublist_concat.
    etrans; [apply sublist_take|apply sublist_drop].
Qed.

(** X15: for a minute of day, the trips that the query selects are among
    the trips of the unfiltered query, each one at most as many times. *)
Theorem filterByMinute_within_unfiltered idx (c : Z) :
  length idx = 1440%nat -> 0 <= c <= 1439 ->
  filterByMinute idx c ⊆+ filterByMinute idx (-1).
Proof. exact (filterByMinute_submseteq_flat idx c). Qed.

Lemma seq_head (s n : nat) : seq s (S n) = s :: seq (S s) n.
Proof. done. Qed.

(** X16: moving the query from minute [c] to minute [c + 1] drops the
    bucket sixty minutes before [c] from the front of the result and adds
    the bucket sixty minutes after [c] at its end; what lies between is
    kept as it is. *)
Theorem filterByMinute_slides_by_one idx (c : Z) :
  length idx = 1440%nat -> 0 <= c < 1439 ->
  exists kept : list T,
    filterByMinute idx c
    = bucket idx (Z.to_nat ((c - 60 + 1440) `mod` 1440)) ++ kept
    /\ filterByMinute idx (c + 1)
       = kept ++ bucket idx (Z.to_nat ((c + 60) `mod` 1440)).
Proof.
  intros Hlen Hc.
  rewrite !filterByMinute_window by (done || lia).
  unfold windowMinutes.
  exists (concat (bucket idx
            <$> ((fun k => Z.to_nat ((c + 1 - 60 + Z.of_nat k) `mod` 1440))
                 <$> seq 0 119))).
  split.
  - assert ((fun k => Z.to_nat ((c - 60 + Z.of_nat k) `mod` 1440))
              <$> seq 0 120
            = Z.to_nat ((c - 60 + 1440) `mod` 1440)
              :: ((fun k => Z.to_nat ((c + 1 - 60 + Z.of_nat k) `mod` 1440))
                  <$> seq 0 119)) as ->.
    { rewrite (seq_head 0 119), fmap_cons. f_equal.
      - f_equal.
        replace (c - 60 + 1440) with (c - 60 + Z.of_nat 0 + 1 * 1440) by lia.
        by rewrite Z.mod_add by lia.
      - rewrite <- fmap_S_seq, <- list_fmap_compose.
        apply list_fmap_ext. intros _ k _. unfold compose.
        do 2 f_equal. lia. }
    by rewrite fmap_cons.
  - rewrite (seq_S 119 0), !fmap_app, concat_app. f_equal.
    simpl. rewrite app_nil_r. do 3 f_equal. lia.
Qed.

End WindowFurther.

Lemma filterByMinute_wraps_by_day_witness :
  filterByMinute Sample.idx640 (700 + 1440) = filterByMinute Sample.idx640 700.
Proof.
  apply (filterByMinute_wraps_by_day Sample.idx640 700);
    unfold MAX_SAFE_INTEGER; lia.
Defined.

Lemma filterByMinute_negative_minute_witness :
  filterByMinute Sample.idx640 (-100)
  = buckets Sample.idx640 1280 1440 ++ buckets Sample.idx640 0 1400.
Proof.
  apply (filterByMinute_negative_minute Sample.idx640 (-100));
    [reflexivity|lia].
Defined.

Lemma filterByMinute_within_unfiltered_witness :
  filterByMinute Sample.idx640 10 ⊆+ filterByMinute Sample.idx640 (-1).
Proof.
  apply (filterByMinute_within_unfiltered Sample.idx640 10);
    [reflexivity|lia].
Defined.

Lemma filterByMinute_slides_by_one_witness :
  exists kept : list Trip,
    filterByMinute Sample.idx640 700 = bucket Sample.idx640 640 ++ kept
    /\ filterByMinute Sample.idx640 701 = kept ++ bucket Sample.idx640 760.
Proof.
  apply (filterByMinute_slides_by_one Sample.idx640 700); [reflexivity|lia].
Defined.

Lemma filterByMinute_only_indexed_trips_witness :
  Sample.tripAB ∈ JS.flat Sample.idx640.
Proof.
  apply (filterByMinute_only_indexed_trips Sample.idx640 700).
  change (filterByMinute Sample.idx640 700) with [Sample.tripAB].
  apply elem_of_cons. by left.
Defined.

(** ** Queries: further statements *)

Section Queries.
Implicit Types (rows trips depTrips arrTrips : list Trip) (s : Station).
Implicit Types (h : gmap positive Station) (stations : list positive).
Implicit Types (w : World) (ids : list string).

Lemma exec_computeStationTraffic_lookup stations (timeFilter : Z) w
    (l : positive) :
  heap (exec (computeStationTraffic stations timeFilter) w) !! l
  = if decide (l ∈ stations) then
      withTraffic (filterByMinute (departuresByMinute w) timeFilter)
        (filterByMinute (arrivalsByMinute w) timeFilter) <$> heap w !! l
    else heap w !! l.
Proof.
  rewrite exec_computeStationTraffic. cbn [heap set_heap].
  apply aggregateHeap_lookup.
Qed.

Lemma aggregateHeap_absorb stations (dep1 arr1 dep2 arr2 : list Trip) h :
  aggregateHeap stations dep2 arr2 (aggregateHeap stations dep1 arr1 h)
  = aggregateHeap stations dep2 arr2 h.
Proof.
  apply map_eq. intros l. rewrite !aggregateHeap_lookup.
  destruct (decide (l ∈ stations)); [|done].
  by destruct (h !! l).
Qed.

Lemma exec_computeStationTraffic_absorb stations (tf1 tf2 : Z) w :
  exec (computeStationTraffic stations tf2)
    (exec (computeStationTraffic stations tf1) w)
  = exec (computeStationTraffic stations tf2) w.
Proof.
  rewrite !exec_computeStationTraffic.
  unfold set_heap. cbn [departuresByMinute arrivalsByMinute heap].
  by rewrite aggregateHeap_absorb.
Qed.

Lemma slide_total stations (timeFilters : list Z) w :
  slide stations timeFilters w
  = (Normal ((fun _ => stations) <$> timeFilters),
     foldl (fun w tf => exec (computeStationTraffic stations tf) w)
       w timeFilters).
Proof.
  unfold slide.
  apply (mapM_total (computeStationTraffic stations) (fun _ => stations)
           (fun tf w => exec (computeStationTraffic stations tf) w)).
  intros tf w'. unfold exec. by rewrite computeStationTraffic_total.
Qed.

Lemma exec_slide_last stations (timeFilters : list Z) (c : Z) w :
  exec (slide stations (timeFilters ++ [c])) w
  = exec (computeStationTraffic stations c) w.
Proof.
  unfold exec at 1. rewrite slide_total. cbn [snd].
  rewrite foldl_app. cbn [foldl].
  revert w. induction timeFilters as [|tf tfs IH]; intros w; [done|].
  cbn [foldl]. rewrite IH. apply exec_computeStationTraffic_absorb.
Qed.

Lemma exec_startup rows stations w :
  exec (startup rows stations) w
  = exec (computeStationTraffic stations (-1)) (exec (loadTrips rows) w).
Proof.
  unfold startup, computeStationTraffic_default, exec, mbind, M_bind.
  by rewrite loadTrips_total.
Qed.

Lemma countBy_submseteq (key : Trip -> string) (id : string)
    (l1 l2 : list Trip) :
  l1 ⊆+ l2 -> countBy key id l1 <= countBy key id l2.
Proof.
  intros [k Hk]%submseteq_Permutation. unfold countBy.
  rewrite Hk, filter_app, length_app. lia.
Qed.

Lemma countBy_app (key : Trip -> string) (id : string) (l1 l2 : list Trip) :
  countBy key id (l1 ++ l2) = countBy key id l1 + countBy key id l2.
Proof. unfold countBy. rewrite filter_app, length_app. lia. Qed.

Lemma sumOver_countBy_roster (key : Trip -> string) trips ids :
  NoDup ids ->
  sumOver (fun id => countBy key id trips) ids
  = Z.of_nat (length (filter (fun t => key t ∈ ids) trips)).
Proof.
  intros Hnd. induction trips as [|t trips IH].
  - by apply sumOver_zero.
  - rewrite (sumOver_ext _ _ ids (fun id => countBy_cons key id t trips)).
    rewrite sumOver_add, IH, filter_cons.
    destruct (decide (key t ∈ ids)).
    + rewrite sumOver_indicator_present by done. simpl length. lia.
    + rewrite sumOver_indicator_absent by done. lia.
Qed.

Lemma short_name_on_roster stations h (l : positive) s :
  l ∈ stations -> h !! l = Some s -> short_name s ∈ rosterIds h stations.
Proof.
  intros Hl Hs. unfold rosterIds. apply list_elem_of_omap.
  exists l. split; [done|]. by rewrite Hs.
Qed.

Lemma filterByMinute_empty_index {T} (n : nat) (minute : Z) :
  filterByMinute (@JS.from_length T n) minute = [].
Proof.
  apply elem_of_nil_inv. intros t Ht%filterByMinute_subset_flat.
  apply elem_of_concat in Ht as (b & Ht & Hb).
  apply elem_of_replicate_inv in Hb. subst b. by apply elem_of_nil in Ht.
Qed.

(** X17: the counts that a query leaves do not depend on the queries made
    before it: after any sequence of slider moves the world is the one that
    the last move alone would have left, and every move returns the roster
    it was given. *)
Theorem slide_depends_on_last_move stations (timeFilters : list Z) (c : Z) w :
  exec (slide stations (timeFilters ++ [c])) w
  = exec (computeStationTraffic stations c) w
  /\ result (slide stations (timeFilters ++ [c])) w
     = Normal (replicate (length (timeFilters ++ [c])) stations).
Proof.
  split; [apply exec_slide_last|].
  unfold result. rewrite slide_total. cbn [fst]. f_equal.
  generalize (timeFilters ++ [c]). intros l.
  induction l as [|x l IH]; [done|].
  rewrite fmap_cons, IH. done.
Qed.

(** X18: a query depends on which station objects the roster refers to,
    not on their order nor on how often the roster repeats a reference. *)
Theorem computeStationTraffic_roster_as_set stations1 stations2
    (timeFilter : Z) w :
  (forall l, l ∈ stations1 <-> l ∈ stations2) ->
  exec (computeStationTraffic stations1 timeFilter) w
  = exec (computeStationTraffic stations2 timeFilter) w.
Proof.
  intros Hsame. rewrite !exec_computeStationTraffic. unfold set_heap.
  f_equal. apply map_eq. intros l. rewrite !aggregateHeap_lookup.
  destruct (decide (l ∈ stations1)) as [H1|H1],
    (decide (l ∈ stations2)) as [H2|H2]; try done;
    exfalso; apply Hsame in H1 || apply Hsame in H2; done.
Qed.

(** X19: for a minute of day, no roster station gets more departures, more
    arrivals or more total traffic from the filtered query than from the
    unfiltered one. *)
Theorem filtered_counts_below_unfiltered stations (c : Z) w
    (l : positive) s :
  indexed w -> 0 <= c <= 1439 -> l ∈ stations -> heap w !! l = Some s ->
  let filtered := exec (computeStationTraffic stations c) w in
  let unfiltered := exec (computeStationTraffic stations (-1)) w in
  intOf (heap filtered !! l ≫= departures)
  <= intOf (heap unfiltered !! l ≫= departures)
  /\ intOf (heap filtered !! l ≫= arrivals)
     <= intOf (heap unfiltered !! l ≫= arrivals)
  /\ intOf (heap filtered !! l ≫= totalTraffic)
     <= intOf (heap unfiltered !! l ≫= totalTraffic).
Proof.
  intros [Hld Hla] Hc Hl Hs filtered unfiltered.
  unfold filtered, unfiltered.
  rewrite !exec_computeStationTraffic_lookup, !decide_True by done.
  rewrite Hs. cbn.
  pose proof (countBy_submseteq start_station_id (short_name s) _ _
                (filterByMinute_submseteq_flat _ c Hld Hc)).
  pose proof (countBy_submseteq end_station_id (short_name s) _ _
                (filterByMinute_submseteq_flat _ c Hla Hc)).
  change (filterByMinute (departuresByMinute w) (-1))
    with (JS.flat (departuresByMinute w)) in *.
  change (filterByMinute (arrivalsByMinute w) (-1))
    with (JS.flat (arrivalsByMinute w)) in *.
  lia.
Qed.

(** X20: on a roster whose identifiers are pairwise distinct, the total
    traffic of the roster after a query is the number of selected
    departures that start at a roster station plus the number of selected
    arrivals that end at one; trips of other stations count for nothing. *)
Theorem roster_total_counts_roster_trips stations (timeFilter : Z) w :
  (forall l, l ∈ stations -> is_Some (heap w !! l)) ->
  NoDup (rosterIds (heap w) stations) ->
  let ids := rosterIds (heap w) stations in
  let depTrips := filterByMinute (departuresByMinute w) timeFilter in
  let arrTrips := filterByMinute (arrivalsByMinute w) timeFilter in
  sumTotalTraffic (exec (computeStationTraffic stations timeFilter) w)
    stations
  = Z.of_nat (length (filter (fun t => start_station_id t ∈ ids) depTrips))
    + Z.of_nat (length (filter (fun t => end_station_id t ∈ ids) arrTrips)).
Proof.
  intros Halloc Hnd ids depTrips arrTrips.
  rewrite exec_computeStationTraffic.
  rewrite sumTotalTraffic_aggregate by (intros l Hl; split; auto).
  by rewrite sumOver_add, !sumOver_countBy_roster.
Qed.

(** X21: trips that start or end at a station whose identifier is not on
    the roster are dropped without notice: adding them to the two trip
    lists changes nothing in what [aggregate] leaves. *)
Theorem aggregate_ignores_unknown_stations stations depTrips arrTrips
    (moreDep moreArr : list Trip) w :
  Forall (fun t => start_station_id t ∉ rosterIds (heap w) stations)
    moreDep ->
  Forall (fun t => end_station_id t ∉ rosterIds (heap w) stations)
    moreArr ->
  exec (aggregate stations (depTrips ++ moreDep) (arrTrips ++ moreArr)) w
  = exec (aggregate stations depTrips arrTrips) w.
Proof.
  intros Hd Ha. rewrite !exec_aggregate. unfold set_heap. f_equal.
  apply map_eq. intros l. rewrite !aggregateHeap_lookup.
  destruct (decide (l ∈ stations)) as [Hl|]; [|done].
  destruct (heap w !! l) as [s|] eqn:Hs; [|done]. simpl. f_equal.
  pose proof (short_name_on_roster stations (heap w) l s Hl Hs) as Hid.
  unfold withTraffic. rewrite !countBy_app.
  rewrite (countBy_none start_station_id (short_name s) moreDep).
  2:{ intros t Ht Heq. apply (proj1 (Forall_forall _ _) Hd t Ht).
      by rewrite Heq. }
  rewrite (countBy_none end_station_id (short_name s) moreArr).
  2:{ intros t Ht Heq. apply (proj1 (Forall_forall _ _) Ha t Ht).
      by rewrite Heq. }
  by rewrite !Z.add_0_r.
Qed.

(** X22: before any trip is loaded every query, whatever its minute, gives
    every roster station zero departures, zero arrivals and zero total
    traffic. *)
Theorem empty_index_gives_zero_traffic stations (timeFilter : Z) h
    (l : positive) s :
  l ∈ stations -> h !! l = Some s ->
  heap (exec (computeStationTraffic stations timeFilter) (initialWorld h))
    !! l
  = Some (mkStation (short_name s) (lat s) (lon s)
            (Some (JS.Int 0)) (Some (JS.Int 0)) (Some (JS.Int 0))).
Proof.
  intros Hl Hs.
  rewrite exec_computeStationTraffic_lookup, decide_True by done.
  unfold initialWorld. cbn [departuresByMinute arrivalsByMinute heap].
  rewrite !filterByMinute_empty_index. by rewrite Hs.
Qed.

(** X23: at startup every roster station gets as departures the number of
    rows of the file that start at it and whose start parses, and as
    arrivals the number of rows that end at it and whose two timestamps
    parse. *)
Theorem startup_counts_the_file rows stations h (l : positive) s :
  Forall Trip_wf rows -> l ∈ stations -> h !! l = Some s ->
  result (startup rows stations) (initialWorld h) = Normal stations
  /\ heap (exec (startup rows stations) (initialWorld h)) !! l
     = Some (withTraffic (filter startParses rows)
               (filter (fun d => validTrip d = true) rows) s).
Proof.
  intros Hwf Hl Hs. split.
  { unfold result, startup, computeStationTraffic_default, mbind, M_bind.
    by rewrite loadTrips_total, computeStationTraffic_total. }
  rewrite exec_startup.
  rewrite exec_computeStationTraffic_lookup, decide_True by done.
  destruct (build_effect rows h Hwf) as (_ & -> & _).
  destruct (built_flat_perm rows h Hwf) as [Hd Ha].
  rewrite Hs. cbn [fmap option_fmap option_map]. f_equal.
  by apply withTraffic_Permutation.
Qed.

(** X24: after startup and any sequence of slider moves that ends on a
    minute of day [c], every roster station has the counts that a scan of
    the whole file would give: the rows from that station whose start lies
    in the window of [c], and the rows to that station, with two parseable
    timestamps, whose end lies in it. *)
Theorem session_counts_match_scan rows stations h (timeFilters : list Z)
    (c : Z) (l : positive) s :
  Forall Trip_wf rows -> 0 <= c <= 1439 ->
  l ∈ stations -> h !! l = Some s ->
  let w0 := exec (startup rows stations) (initialWorld h) in
  heap (exec (slide stations (timeFilters ++ [c])) w0) !! l
  = Some (withTraffic (scanDepartures rows c) (scanArrivals rows c) s).
Proof.
  intros Hwf Hc Hl Hs w0. unfold w0.
  rewrite exec_slide_last, exec_startup.
  rewrite exec_computeStationTraffic_absorb.
  rewrite exec_computeStationTraffic_lookup, decide_True by done.
  destruct (build_effect rows h Hwf) as (_ & -> & _).
  destruct (built_window_perm rows h c Hwf Hc) as [Hd Ha].
  rewrite Hs. cbn [fmap option_fmap option_map]. f_equal.
  by apply withTraffic_Permutation.
Qed.

End Queries.

(** ** The further statements on the sample data *)

Lemma loadTrips_bad_start_no_effect_witness :
  exec (loadTrips [Sample.tripBadStart]) Sample.loaded = Sample.loaded.
Proof.
  apply (loadTrips_bad_start_no_effect [Sample.tripBadStart] Sample.loaded).
  repeat constructor.
Defined.

Lemma loadTrips_appends_in_file_order_witness :
  bucket (departuresByMinute
            (exec (loadTrips [Sample.tripAB; Sample.tripBA])
               (initialWorld ∅))) 640
  = bucket (departuresByMinute (initialWorld ∅)) 640
    ++ filter (fun d => minuteOf (started_at d) = Some 640%nat)
         [Sample.tripAB; Sample.tripBA].
Proof.
  assert (indexed (initialWorld ∅)) as Hw by (split; reflexivity).
  assert (Forall Trip_wf [Sample.tripAB; Sample.tripBA]) as Hwf
    by (repeat constructor; simpl; lia).
  pose proof (loadTrips_appends_in_file_order [Sample.tripAB; Sample.tripBA]
                (initialWorld ∅) 640 Hw Hwf) as [H _].
  exact H.
Defined.

Lemma index_size_gap_witness :
  let rows := [Sample.tripAB; Sample.tripBadEnd] in
  let w := exec (loadTrips rows) (initialWorld ∅) in
  indexSize (departuresByMinute w)
  = (validTripCount rows + length (filter endFails rows))%nat.
Proof.
  cbv zeta.
  apply (index_size_gap [Sample.tripAB; Sample.tripBadEnd] ∅).
  repeat constructor; simpl; lia.
Defined.

Lemma computeStationTraffic_roster_as_set_witness :
  exec (computeStationTraffic [1%positive; 2%positive; 1%positive] 700)
    Sample.loaded
  = exec (computeStationTraffic [2%positive; 1%positive] 700) Sample.loaded.
Proof.
  apply (computeStationTraffic_roster_as_set
           [1%positive; 2%positive; 1%positive] [2%positive; 1%positive]).
  intros l. rewrite !elem_of_cons, elem_of_nil. tauto.
Defined.

Lemma filtered_counts_below_unfiltered_witness :
  let stations := [1%positive; 2%positive; 3%positive] in
  let filtered := exec (computeStationTraffic stations 10) Sample.loaded in
  let unfiltered := exec (computeStationTraffic stations (-1)) Sample.loaded in
  intOf (heap filtered !! 1%positive ≫= totalTraffic)
  <= intOf (heap unfiltered !! 1%positive ≫= totalTraffic).
Proof.
  cbv zeta.
  apply (filtered_counts_below_unfiltered
           [1%positive; 2%positive; 3%positive] 10 Sample.loaded
           1%positive Sample.stationA).
  - split; reflexivity.
  - lia.
  - apply elem_of_cons. by left.
  - reflexivity.
Defined.

Lemma roster_total_counts_roster_trips_witness :
  let stations := [1%positive; 3%positive] in
  let ids := rosterIds (heap Sample.loaded) stations in
  sumTotalTraffic (exec (computeStationTraffic stations 700) Sample.loaded)
    stations
  = Z.of_nat (length (filter (fun t => start_station_id t ∈ ids)
                        (filterByMinute (departuresByMinute Sample.loaded)
                           700)))
    + Z.of_nat (length (filter (fun t => end_station_id t ∈ ids)
                          (filterByMinute (arrivalsByMinute Sample.loaded)
                             700))).
Proof.
  cbv zeta.
  apply (roster_total_counts_roster_trips [1%positive; 3%positive] 700
           Sample.loaded).
  - intros l Hl.
    repeat (apply elem_of_cons in Hl as [->|Hl]; [by eexists|]).
    by apply elem_of_nil in Hl.
  - change (NoDup ["A"; "C"]). apply NoDup_ListNoDup.
    repeat (constructor; [simpl; intuition discriminate|]). constructor.
Defined.

Lemma aggregate_ignores_unknown_stations_witness :
  let w := initialWorld Sample.store in
  let elsewhere := mkTrip "Z" "Z" (JS.DateTime 1 0) (JS.DateTime 1 5) in
  exec (aggregate [1%positive; 2%positive]
          ([Sample.tripAB] ++ [elsewhere]) ([Sample.tripAB] ++ [elsewhere])) w
  = exec (aggregate [1%positive; 2%positive] [Sample.tripAB] [Sample.tripAB])
      w.
Proof.
  cbv zeta.
  apply (aggregate_ignores_unknown_stations [1%positive; 2%positive]).
  - repeat constructor. change (rosterIds _ _) with ["A"; "B"].
    rewrite !elem_of_cons, elem_of_nil. simpl. intuition discriminate.
  - repeat constructor. change (rosterIds _ _) with ["A"; "B"].
    rewrite !elem_of_cons, elem_of_nil. simpl. intuition discriminate.
Defined.

Lemma empty_index_gives_zero_traffic_witness :
  heap (exec (computeStationTraffic [1%positive] 5000)
          (initialWorld Sample.store)) !! 1%positive
  = Some (mkStation "A" "42.36" "-71.09"
            (Some (JS.Int 0)) (Some (JS.Int 0)) (Some (JS.Int 0))).
Proof.
  apply (empty_index_gives_zero_traffic [1%positive] 5000 Sample.store
           1%positive Sample.stationA).
  - apply elem_of_cons. by left.
  - reflexivity.
Defined.

Lemma startup_counts_the_file_witness :
  let rows := [Sample.tripAB; Sample.tripBadEnd] in
  heap (exec (startup rows [1%positive; 2%positive])
          (initialWorld Sample.store)) !! 1%positive
  = Some (withTraffic (filter startParses rows)
            (filter (fun d => validTrip d = true) rows) Sample.stationA).
Proof.
  cbv zeta.
  apply (startup_counts_the_file [Sample.tripAB; Sample.tripBadEnd]
           [1%positive; 2%positive] Sample.store 1%positive Sample.stationA).
  - repeat constructor; simpl; lia.
  - apply elem_of_cons. by left.
  - reflexivity.
Defined.

Lemma session_counts_match_scan_witness :
  let rows := [Sample.tripAB; Sample.tripBA] in
  let stations := [1%positive; 2%positive] in
  let w0 := exec (startup rows stations) (initialWorld Sample.store) in
  heap (exec (slide stations ([-1; 10] ++ [700])) w0) !! 2%positive
  = Some (withTraffic (scanDepartures rows 700) (scanArrivals rows 700)
            Sample.stationB).
Proof.
  cbv zeta.
  apply (session_counts_match_scan [Sample.tripAB; Sample.tripBA]
           [1%positive; 2%positive] Sample.store [-1; 10] 700
           2%positive Sample.stationB).
  - repeat constructor; simpl; lia.
  - lia.
  - apply elem_of_cons. right. apply elem_of_cons. by left.
  - reflexivity.
Defined.
